(** * Compile-time instrumentation: trampolines, dispatch and the net/http hooks

    A shallow embedding of
    - the hook dispatch generator of the instrumentation phase
      ([callBeforeHook], [callAfterHook], [buildTrampolineTypes]), whose
      behaviour is pinned down by [TestCallBeforeHook], [TestCallAfterHook]
      and [TestBuildTrampolineTypes];
    - [instrumentation/nethttp/response_writer.go];
    - the client and server hooks of [instrumentation/nethttp]
      ([BeforeClientDo], [AfterClientDo], [BeforeServeHTTP],
      [AfterServeHTTP]). *)

From Stdlib Require Import List String Ascii ZArith Lia Bool Arith.
From Stdlib Require Import Decimal DecimalString.
Import ListNotations.

Set Implicit Arguments.
Set Warnings "-register-all".

(* ================================================================== *)
(** * Part I: the hook dispatcher generator *)
(* ================================================================== *)

Module Instrument.

Local Open Scope string_scope.
Local Open Scope list_scope.
Local Open Scope nat_scope.

(** ** Syntax trees

    The fragment of the decorated syntax tree that the dispatcher reads and
    writes: type expressions of formals, call arguments, and the three
    statement forms that occur in a trampoline body. *)

Inductive TypeExpr : Type :=
| TIdent (name : string)
| TStar (x : TypeExpr)
| TEllipsis (elt : TypeExpr).

(** One formal parameter: a name and a type expression. *)
Record Field : Type := mkField {
  Name : string;
  Type_ : TypeExpr
}.

(** [ParamTrait]: the descriptor of one formal of a hook. *)
Record ParamTrait : Type := mkTrait {
  IsVariadic : bool;
  Index : nat
}.

Inductive Expr : Type :=
| Ident (name : string)
| NewHookContext                       (* a HookContext built at dispatch time *)
| Forward (x : Expr)                   (* [x...], variadic forwarding *)
| HooksEnabled (rule : string)         (* the run-time guard predicate *)
| CallExpr (Fun : string) (Args : list Expr).

Inductive Stmt : Type :=
| ReturnStmt
| ExprStmt (X : Expr)
| IfStmt (Cond : Expr) (Body : list Stmt).

Record FuncDecl : Type := mkFuncDecl {
  FuncName : string;
  Params : list Field;
  Body : list Stmt
}.

(** The declaration to be instrumented. *)
Record TargetFunction : Type := mkTarget {
  QualifiedName : string;
  Recv : option Field;
  TargetParams : list Field;
  TargetResults : list Field
}.

(** [rule.InstFuncRule], as the tests build it. *)
Record InstFuncRule : Type := mkRule {
  RuleName : string;
  Target : string;
  Func : string;
  Before : string;
  After : string
}.

(** Per-package working state: the two trampolines under construction. *)
Record InstrumentPhase : Type := mkPhase {
  targetFunc : TargetFunction;
  beforeHookFunc : FuncDecl;
  afterHookFunc : FuncDecl
}.

(** ** Errors *)

Inductive TrampolineKind : Type := KBefore | KAfter.

Inductive Error : Type :=
| HookArityError (kind : TrampolineKind) (declared available : nat)
| ASTMalformed.

Inductive result (A : Type) : Type :=
| Ok (a : A)
| Err (e : Error).
Arguments Ok {A} a.
Arguments Err {A} e.

(** [%d] of a non-negative count. *)
Definition itoa (n : nat) : string :=
  NilEmpty.string_of_uint (Nat.to_uint n).

(** The text of an error; the two arity messages are the ones the tests
    look for with [assert.Contains]. *)
Definition ErrorText (e : Error) : string :=
  match e with
  | HookArityError KBefore d a =>
      ("hook declares " ++ itoa d
        ++ " params but target function only has " ++ itoa a
        ++ " params available")%string
  | HookArityError KAfter d a =>
      ("hook declares " ++ itoa d
        ++ " params but trampoline only has " ++ itoa a
        ++ " params available")%string
  | ASTMalformed => "malformed syntax tree"
  end.

(** [s] contains [sub] as a substring. *)
Definition Contains (s sub : string) : Prop :=
  exists pre post, s = (pre ++ sub ++ post)%string.

(** ** Argument matching *)

(** The argument that forwards one trampoline formal to the hook. *)
Definition formalArg (t : ParamTrait) (f : Field) : Expr :=
  if IsVariadic t then Forward (Ident (Name f)) else Ident (Name f).

(** Traits and formals are walked in step; the walk stops with the shorter
    of the two, so a hook with fewer formals gets a prefix. *)
Fixpoint matchFormals (traits : list ParamTrait) (formals : list Field)
  : list Expr :=
  match traits, formals with
  | t :: traits', f :: formals' => formalArg t f :: matchFormals traits' formals'
  | _, _ => []
  end.

(** Modelled from the spec: the argument list of [callBeforeHook], which is
    not among the sources. The hook's first formal receives a HookContext
    built at dispatch time; trait [i >= 1] is matched with trampoline
    formal [i-1]. *)
Definition beforeArgs (traits : list ParamTrait) (formals : list Field)
  : list Expr :=
  match traits with
  | [] => []
  | _ :: traits' => NewHookContext :: matchFormals traits' formals
  end.

(** The two readings the spec gives for the After hook's HookContext
    argument: the dispatch section has it "locally constructed" for both
    trampolines, scenario S2 draws it from "position 0 of the trampoline's
    formals". The dispatcher below takes the reading as a parameter. *)
Definition contextFromFormal (c : Field) : Expr := Ident (Name c).
Definition contextConstructed (_ : Field) : Expr := NewHookContext.

(** Modelled from the spec: the argument list of [callAfterHook], which is
    not among the sources. Both sequences begin with the HookContext;
    [afterContext] says how the hook's context is obtained from the
    trampoline's first formal, and trait [i >= 1] is matched with trampoline
    formal [i]. *)
Definition afterArgs (afterContext : Field -> Expr)
  (traits : list ParamTrait) (formals : list Field) : list Expr :=
  match traits, formals with
  | _ :: traits', c :: formals' => afterContext c :: matchFormals traits' formals'
  | _, _ => []
  end.

(** ** Insertion into a body *)

(** [insertAt body stmt idx] puts [stmt] in front of the statement at
    position [idx]. The tests note that the body needs at least its
    [return] for the insertion to work: an index outside the body is a
    malformed tree. *)
Definition insertAt (body : list Stmt) (stmt : Stmt) (idx : Z)
  : result (list Stmt) :=
  if (idx <? 0)%Z then Err ASTMalformed
  else if (Z.of_nat (List.length body) <? idx)%Z then Err ASTMalformed
  else Ok (firstn (Z.to_nat idx) body ++ stmt :: skipn (Z.to_nat idx) body).

Definition setBody (fn : FuncDecl) (body : list Stmt) : FuncDecl :=
  mkFuncDecl (FuncName fn) (Params fn) body.

(** The guarded dispatch: [if <hooks enabled for rule> { hook(args) }]. *)
Definition guardedCall (rule hook : string) (args : list Expr) : Stmt :=
  IfStmt (HooksEnabled rule) [ExprStmt (CallExpr hook args)].

(** ** The dispatcher *)

(** Modelled from the spec: [InstrumentPhase.callBeforeHook], which is not
    among the sources (its test is). It fails when the hook declares more
    than one plus the number of trampoline formals, and otherwise inserts
    the guarded call in front of the last statement of the body. *)
Definition callBeforeHook (ip : InstrumentPhase) (t : InstFuncRule)
  (traits : list ParamTrait) : result InstrumentPhase :=
  let fn := beforeHookFunc ip in
  let available := List.length (Params fn) + 1 in
  if available <? List.length traits
  then Err (HookArityError KBefore (List.length traits) available)
  else
    let iff := guardedCall (RuleName t) (Before t)
                 (beforeArgs traits (Params fn)) in
    match insertAt (Body fn) iff (Z.of_nat (List.length (Body fn)) - 1) with
    | Err e => Err e
    | Ok body =>
        Ok (mkPhase (targetFunc ip) (setBody fn body) (afterHookFunc ip))
    end.

(** Modelled from the spec: [InstrumentPhase.callAfterHook], which is not
    among the sources (its test is). It fails when the hook declares more
    formals than the trampoline has. *)
Definition callAfterHook (afterContext : Field -> Expr)
  (ip : InstrumentPhase) (t : InstFuncRule)
  (traits : list ParamTrait) : result InstrumentPhase :=
  let fn := afterHookFunc ip in
  let available := List.length (Params fn) in
  if available <? List.length traits
  then Err (HookArityError KAfter (List.length traits) available)
  else
    let iff := guardedCall (RuleName t) (After t)
                 (afterArgs afterContext traits (Params fn)) in
    match insertAt (Body fn) iff (Z.of_nat (List.length (Body fn)) - 1) with
    | Err e => Err e
    | Ok body =>
        Ok (mkPhase (targetFunc ip) (beforeHookFunc ip) (setBody fn body))
    end.

(** ** The trampoline builder *)

Definition HookContextType : TypeExpr := TIdent "HookContext".

Definition hookContextField : Field := mkField "hookContext" HookContextType.

Definition isHookContext (f : Field) : bool :=
  match Type_ f with
  | TIdent n => String.eqb n "HookContext"
  | _ => false
  end.

Definition recvFields (tf : TargetFunction) : list Field :=
  match Recv tf with
  | Some r => [r]
  | None => []
  end.

(** Modelled from the spec: [InstrumentPhase.buildTrampolineTypes], which is
    not among the sources (its test is). The Before trampoline clones the
    target's formals, receiver first; the After trampoline puts a
    HookContext in front of receiver, parameters and results. *)
Definition buildTrampolineTypes (ip : InstrumentPhase) : InstrumentPhase :=
  let tf := targetFunc ip in
  let before := recvFields tf ++ TargetParams tf in
  let after := hookContextField
                 :: recvFields tf ++ TargetParams tf ++ TargetResults tf in
  mkPhase tf
    (mkFuncDecl (FuncName (beforeHookFunc ip)) before
       (Body (beforeHookFunc ip)))
    (mkFuncDecl (FuncName (afterHookFunc ip)) after
       (Body (afterHookFunc ip))).

(** ** Reading the generated code back, as the tests do *)

(** The first [if] statement of a body. *)
Fixpoint findIfStmt (body : list Stmt) : option (Expr * list Stmt) :=
  match body with
  | [] => None
  | IfStmt c b :: _ => Some (c, b)
  | _ :: rest => findIfStmt rest
  end.

(** The call in the first statement of the first [if] of a body. *)
Definition dispatchCall (fn : FuncDecl) : option (string * list Expr) :=
  match findIfStmt (Body fn) with
  | Some (_, ExprStmt (CallExpr f args) :: _) => Some (f, args)
  | _ => None
  end.

(** The formal a dispatch argument is drawn from, without its forwarding
    marker. *)
Definition argSource (e : Expr) : option string :=
  match e with
  | Ident n => Some n
  | Forward (Ident n) => Some n
  | _ => None
  end.

(** The statement in front of the last statement of a body, which is where
    the dispatcher puts its guarded call, and the call inside it. *)
Definition emittedStmt (fn : FuncDecl) : option Stmt :=
  nth_error (Body fn) (List.length (Body fn) - 2).

Definition emittedCall (fn : FuncDecl) : option (string * list Expr) :=
  match emittedStmt fn with
  | Some (IfStmt _ (ExprStmt (CallExpr f args) :: _)) => Some (f, args)
  | _ => None
  end.

(** ** Both directions at once *)

Definition trampoline (k : TrampolineKind) (ip : InstrumentPhase) : FuncDecl :=
  match k with
  | KBefore => beforeHookFunc ip
  | KAfter => afterHookFunc ip
  end.

Definition hookName (k : TrampolineKind) (t : InstFuncRule) : string :=
  match k with
  | KBefore => Before t
  | KAfter => After t
  end.

Definition callHook (k : TrampolineKind) (afterContext : Field -> Expr)
  (ip : InstrumentPhase) (t : InstFuncRule) (traits : list ParamTrait)
  : result InstrumentPhase :=
  match k with
  | KBefore => callBeforeHook ip t traits
  | KAfter => callAfterHook afterContext ip t traits
  end.

(** Arguments a trampoline can supply: its formals, and for Before the
    HookContext built at dispatch time. *)
Definition available (k : TrampolineKind) (ip : InstrumentPhase) : nat :=
  match k with
  | KBefore => List.length (Params (beforeHookFunc ip)) + 1
  | KAfter => List.length (Params (afterHookFunc ip))
  end.

(** The trampoline formal that hook formal [i >= 1] is matched with. *)
Definition formalFor (k : TrampolineKind) (ip : InstrumentPhase) (i : nat)
  : option Field :=
  match k with
  | KBefore => nth_error (Params (beforeHookFunc ip)) (i - 1)
  | KAfter => nth_error (Params (afterHookFunc ip)) i
  end.


(** The first trait of every hook stands for the HookContext and is never
    variadic. *)
Definition firstTraitPlain (traits : list ParamTrait) : bool :=
  match traits with
  | [] => true
  | t :: _ => negb (IsVariadic t)
  end.

(** ** The cases of the tests *)

Definition plain : ParamTrait := mkTrait false 0.
Definition variadic : ParamTrait := mkTrait true 0.

Definition testRule : InstFuncRule :=
  mkRule "test_hook" "main" "TestFunc" "TestBefore" "TestAfter".

Definition emptyTarget : TargetFunction := mkTarget "TestFunc" None [] [].

Definition beforePhase (params : list Field) : InstrumentPhase :=
  mkPhase emptyTarget
    (mkFuncDecl "OtelBeforeTrampoline_test" params [ReturnStmt])
    (mkFuncDecl "OtelAfterTrampoline_test" [] [ReturnStmt]).

Definition afterPhase (params : list Field) : InstrumentPhase :=
  mkPhase emptyTarget
    (mkFuncDecl "OtelBeforeTrampoline_test" [] [ReturnStmt])
    (mkFuncDecl "OtelAfterTrampoline_test" params [ReturnStmt]).

Definition fReceiver : Field := mkField "receiver" (TStar (TIdent "MyType")).
Definition fP1 : Field := mkField "p1" (TIdent "string").
Definition fP2 : Field := mkField "p2" (TIdent "int").
Definition fR1 : Field := mkField "r1" (TIdent "float32").
Definition fR2 : Field := mkField "r2" (TIdent "error").
Definition fCtx : Field := mkField "ctx" (TIdent "HookContext").
Definition fItems : Field := mkField "items" (TEllipsis (TIdent "string")).


Definition phaseFor (tf : TargetFunction) : InstrumentPhase :=
  mkPhase tf
    (mkFuncDecl "OtelBeforeTrampoline_test" [] [ReturnStmt])
    (mkFuncDecl "OtelAfterTrampoline_test" [] [ReturnStmt]).

(** The target of [TestBuildTrampolineTypes]. *)
Definition testTarget : TargetFunction :=
  mkTarget "TestFunc" None [fP1; fP2]
    [mkField "" (TIdent "float32"); mkField "" (TIdent "error")].

Definition errorOf (A : Type) (r : result A) : option string :=
  match r with
  | Ok _ => None
  | Err e => Some (ErrorText e)
  end.

Definition beforeCallOf (r : result InstrumentPhase)
  : option (string * list Expr) :=
  match r with
  | Ok ip => dispatchCall (beforeHookFunc ip)
  | Err _ => None
  end.

Definition afterCallOf (r : result InstrumentPhase)
  : option (string * list Expr) :=
  match r with
  | Ok ip => dispatchCall (afterHookFunc ip)
  | Err _ => None
  end.

End Instrument.

(* ================================================================== *)
(** * Part II: Go values the run-time code works with *)
(* ================================================================== *)

Module Go.

Local Open Scope Z_scope.

(** A value handed to [panic] and seen by [recover]: [None] is the nil
    interface, [Some tag] any other value. *)
Definition PanicValue : Type := option nat.

(** How a call ends: it returns, or it panics. *)
Inductive outcome (A : Type) : Type :=
| Normal (a : A)
| Panicked (v : PanicValue).
Arguments Normal {A} a.
Arguments Panicked {A} v.

Definition isNormal (A : Type) (r : outcome A) : bool :=
  match r with
  | Normal _ => true
  | Panicked _ => false
  end.

(** An [error] value: [None] is nil. *)
Definition GoError : Type := option nat.

(** [int64] arithmetic wraps around. *)
Definition wrap64 (x : Z) : Z := (x + 2 ^ 63) mod 2 ^ 64 - 2 ^ 63.

Definition minInt64 : Z := - 2 ^ 63.
Definition maxInt64 : Z := 2 ^ 63 - 1.

(** Run-time panics of the language and of the libraries used. *)
Definition nilDereference : PanicValue := Some 1%nat.
Definition nilParentContext : PanicValue := Some 2%nat.
Definition nilContext : PanicValue := Some 3%nat.
Definition indexOutOfRange : PanicValue := Some 4%nat.

End Go.

(* ================================================================== *)
(** * Part III: [response_writer.go] *)
(* ================================================================== *)

Module ResponseWriter.

Import Go.
Local Open Scope Z_scope.

Definition StatusOK : Z := 200.

(** [responseWriter] wraps an [http.ResponseWriter] (a value of type [W])
    to capture status code and bytes written. *)
Record responseWriter (W : Type) : Type := mkResponseWriter {
  ResponseWriter : W;
  statusCode : Z;
  bytesWritten : Z;
  wroteHeader : bool
}.
Arguments mkResponseWriter {W} _ _ _ _.

(** One call that reached the wrapped writer, with the way it ended. *)
Inductive UnderlyingCall : Type :=
| UWriteHeader (code : Z) (r : outcome unit)
| UWrite (b : list Byte.byte) (r : outcome (Z * GoError)).

(** The wrapped writer is any implementation of the interface: what a call
    does may depend on the calls it has seen, and a call may panic. *)
Record Underlying : Type := mkUnderlying {
  uWriteHeader : list UnderlyingCall -> Z -> outcome unit;
  uWrite : list UnderlyingCall -> list Byte.byte -> outcome (Z * GoError)
}.

(** The wrapper together with the calls its wrapped writer has received. *)
Definition state (W : Type) : Type := (responseWriter W * list UnderlyingCall)%type.

Section Methods.

Variable W : Type.
Variable u : Underlying.

Definition newResponseWriter (w : W) : responseWriter W :=
  mkResponseWriter w StatusOK 0 false.

Definition WriteHeader (code : Z) (st : state W) : outcome unit * state W :=
  let (rw, calls) := st in
  if negb (wroteHeader rw) then
    let rw' := mkResponseWriter (ResponseWriter rw) code (bytesWritten rw) true in
    let r := uWriteHeader u calls code in
    (r, (rw', calls ++ [UWriteHeader code r]))
  else (Normal tt, st).

Definition Write (b : list Byte.byte) (st : state W)
  : outcome (Z * GoError) * state W :=
  let (r0, st1) :=
    if negb (wroteHeader (fst st)) then WriteHeader StatusOK st
    else (Normal tt, st) in
  match r0 with
  | Panicked v => (Panicked v, st1)
  | Normal _ =>
      let (rw, calls) := st1 in
      let r := uWrite u calls b in
      match r with
      | Panicked v => (Panicked v, (rw, calls ++ [UWrite b r]))
      | Normal (n, err) =>
          let rw' := mkResponseWriter (ResponseWriter rw) (statusCode rw)
                       (wrap64 (bytesWritten rw + n)) (wroteHeader rw) in
          (Normal (n, err), (rw', calls ++ [UWrite b r]))
      end
  end.

Definition Unwrap (rw : responseWriter W) : W := ResponseWriter rw.

Definition StatusCode (rw : responseWriter W) : Z := statusCode rw.

Definition BytesWritten (rw : responseWriter W) : Z := bytesWritten rw.

(** ** Sequences of calls made by a handler *)

Inductive Call : Type :=
| CallWriteHeader (code : Z)
| CallWrite (b : list Byte.byte).

Definition step (c : Call) (st : state W) : state W :=
  match c with
  | CallWriteHeader code => snd (WriteHeader code st)
  | CallWrite b => snd (Write b st)
  end.

(** The handler goes on after a call that panicked if it recovers; the
    sequence is run to its end either way. *)
Definition run (calls : list Call) (st : state W) : state W :=
  fold_left (fun s c => step c s) calls st.

End Methods.

(** Status codes handed to the wrapped writer's [WriteHeader], in order. *)
Fixpoint headersWritten (calls : list UnderlyingCall) : list Z :=
  match calls with
  | [] => []
  | UWriteHeader code _ :: rest => code :: headersWritten rest
  | UWrite _ _ :: rest => headersWritten rest
  end.

(** Sum of the byte counts the wrapped writer's [Write] returned. *)
Fixpoint bytesReturned (calls : list UnderlyingCall) : Z :=
  match calls with
  | [] => 0
  | UWrite _ (Normal (n, _)) :: rest => n + bytesReturned rest
  | _ :: rest => bytesReturned rest
  end.

(** The status of the first [WriteHeader] call, or 200 when a [Write] comes
    before any [WriteHeader]; none when the handler calls nothing. *)
Definition firstStatus (calls : list Call) : option Z :=
  match calls with
  | [] => None
  | CallWriteHeader code :: _ => Some code
  | CallWrite _ :: _ => Some StatusOK
  end.

(** A wrapped writer that accepts every byte, and one that reports the
    largest [int64] for every write. *)
Definition acceptAll : Underlying :=
  mkUnderlying (fun _ _ => Normal tt)
    (fun _ b => Normal (Z.of_nat (List.length b), None)).

Definition hugeWrites : Underlying :=
  mkUnderlying (fun _ _ => Normal tt) (fun _ _ => Normal (maxInt64, None)).

(** The handler of a server: one status and three bytes. *)
Definition handlerCalls : list Call :=
  [CallWrite [Byte.x68; Byte.x69]; CallWriteHeader 404; CallWrite [Byte.x21]].

End ResponseWriter.

(* ================================================================== *)
(** * Part IV: the net/http hooks *)
(* ================================================================== *)

Module NetHTTP.

Import Go.
Import ResponseWriter.
Local Open Scope Z_scope.

(** ** Values *)

(** Keys of request contexts: the two unexported key types of the package,
    and the keys of everybody else. *)
Inductive ctxkey : Type :=
| clientContextKey
| serverContextKey
| otherKey (n : nat).

Definition ctxkey_eqb (a b : ctxkey) : bool :=
  match a, b with
  | clientContextKey, clientContextKey => true
  | serverContextKey, serverContextKey => true
  | otherKey n, otherKey m => Nat.eqb n m
  | _, _ => false
  end.

(** Contexts, requests and the dynamically typed values ([any]) that travel
    through a HookContext and through [context.WithValue].

    A pointer to an immutable struct is the struct, or [None] for the nil
    pointer of that type; a [*responseWriter] is an address in the heap of
    wrappers. A request is its context and an identity that stands for all
    its other fields; [ClientRequest] and [ServerRequest] only wrap the
    request pointer and are the request itself here. *)
Inductive context : Type :=
| CtxNil                                            (* the nil interface *)
| CtxBackground
| CtxCustom (id : nat) (lookup : ctxkey -> value)   (* a foreign implementation *)
| CtxWithValue (parent : context) (key : ctxkey) (val : value)
with Request : Type :=
| mkRequest (req_id : nat) (req_ctx : context)
with value : Type :=
| VNil                                              (* the nil interface *)
| VRequest (p : option Request)                     (* *http.Request *)
| VResponse (p : option nat)                        (* *http.Response *)
| VError (e : nat)                                  (* a non-nil error *)
| VWriter (w : nat)                                 (* some other http.ResponseWriter *)
| VWrapped (addr : option nat)                      (* *responseWriter *)
| VClientInstr (p : option clientInstrumentationContext)
| VServerInstr (p : option serverInstrumentationContext)
| VOther (tag : nat)
with clientInstrumentationContext : Type :=
| mkClientInstr (startTime : Z) (request : Request) (ctx : context)
with serverInstrumentationContext : Type :=
| mkServerInstr (startTime : Z) (request : Request) (writer : option nat).

Definition req_id (r : Request) : nat :=
  match r with mkRequest i _ => i end.

Definition req_ctx (r : Request) : context :=
  match r with mkRequest _ c => c end.

Definition isNilContext (c : context) : bool :=
  match c with
  | CtxNil => true
  | _ => false
  end.

(** [ClientResponse]: the response pointer and the error of [Client.Do]. *)
Record ClientResponse : Type := mkClientResponse {
  Response : option nat;
  Err : GoError
}.

Record ServerResponse : Type := mkServerResponse {
  RespStatusCode : Z;
  RespBytesWritten : Z
}.

(** [instrumenter.Invocation] at its two instances. *)
Record ClientInvocation : Type := mkClientInvocation {
  cRequest : Request;
  cResponse : ClientResponse;
  cErr : GoError;
  cStartTimeStamp : Z;
  cEndTimeStamp : Z
}.

Record ServerInvocation : Type := mkServerInvocation {
  sRequest : Request;
  sResponse : ServerResponse;
  sStartTimeStamp : Z;
  sEndTimeStamp : Z
}.

(** ** Calls to collaborators *)

(** Every call a hook makes to the HookContext, the clock, the
    instrumenters and the logger, with its arguments and the way it
    ended. *)
Inductive event : Type :=
| EvGetParam (i : Z) (r : outcome value)
| EvSetParam (i : Z) (v : value) (r : outcome unit)
| EvGetReturnValCount (r : outcome Z)
| EvGetReturnVal (i : Z) (r : outcome value)
| EvNow (t : Z)
| EvClientStart (parent : context) (req : Request) (r : outcome context)
| EvClientEnd (c : context) (inv : ClientInvocation) (r : outcome unit)
| EvServerStart (parent : context) (req : Request) (r : outcome context)
| EvServerEnd (c : context) (inv : ServerInvocation) (r : outcome unit)
| EvLogError (msg : string) (rec : PanicValue) (r : outcome unit).

(** The collaborators. Each is an arbitrary implementation of its
    interface: its answer may depend on every call made so far, and every
    call except reading the clock may panic.

    [literal_calls_first] is a choice of the compiler: the language leaves
    open whether the function calls among the operands of a composite
    literal are evaluated before or after its other operands. *)
Record Env : Type := mkEnv {
  hc_GetParam : list event -> Z -> outcome value;
  hc_SetParam : list event -> Z -> value -> outcome unit;
  hc_GetReturnValCount : list event -> outcome Z;
  hc_GetReturnVal : list event -> Z -> outcome value;
  time_Now : list event -> Z;
  client_Start : list event -> context -> Request -> outcome context;
  client_End : list event -> context -> ClientInvocation -> outcome unit;
  server_Start : list event -> context -> Request -> outcome context;
  server_End : list event -> context -> ServerInvocation -> outcome unit;
  logger_Error : list event -> string -> PanicValue -> outcome unit;
  literal_calls_first : bool
}.

(** ** The monad of hook code *)

Record world : Type := mkWorld {
  trace : list event;
  heap : list (responseWriter value)
}.

Definition M (A : Type) : Type := world -> outcome A * world.

Definition ret (A : Type) (a : A) : M A := fun w => (Normal a, w).

Definition bind (A B : Type) (m : M A) (k : A -> M B) : M B :=
  fun w =>
    match m w with
    | (Normal a, w') => k a w'
    | (Panicked v, w') => (Panicked v, w')
    end.

Definition panic (A : Type) (v : PanicValue) : M A :=
  fun w => (Panicked v, w).
Arguments panic {A} v.

Declare Scope hook_scope.
Delimit Scope hook_scope with hook.
Notation "x <- m ;; k" := (bind m (fun x => k))
  (at level 61, m at next level, right associativity) : hook_scope.
Notation "m ;;; k" := (bind m (fun _ => k))
  (at level 61, right associativity) : hook_scope.
Local Open Scope hook_scope.

(** A call to a collaborator: ask it, and record the call. *)
Definition call (A : Type) (f : list event -> outcome A)
  (ev : outcome A -> event) : M A :=
  fun w =>
    let r := f (trace w) in
    (r, mkWorld (trace w ++ [ev r]) (heap w)).

Definition alloc (rw : responseWriter value) : M nat :=
  fun w => (Normal (List.length (heap w)), mkWorld (trace w) (heap w ++ [rw])).

Definition load (addr : nat) : M (responseWriter value) :=
  fun w =>
    match nth_error (heap w) addr with
    | Some rw => (Normal rw, w)
    | None => (Panicked nilDereference, w)
    end.

(** [defer func() { if rec := recover(); rec != nil { getLogger().Error(msg,
    "panic", rec) } }()] in front of [body]: [recover] stops a panic of the
    body and yields its value; the handler logs a value that is not nil. The
    handler's own call is not protected. *)
Definition deferRecover (log : string -> PanicValue -> M unit) (msg : string)
  (body : M unit) : M unit :=
  fun w =>
    match body w with
    | (Normal _, w') => (Normal tt, w')
    | (Panicked None, w') => (Normal tt, w')
    | (Panicked (Some t), w') => log msg (Some t) w'
    end.

(** ** Library functions *)

(** [Request.Context]: the request's context, the background
    context when it has none. *)
Definition Request_Context (r : Request) : context :=
  if isNilContext (req_ctx r) then CtxBackground else req_ctx r.

(** [Request.WithContext]: a copy of the request with the context
    replaced; a nil context panics. *)
Definition Request_WithContext (r : Request) (c : context) : M Request :=
  if isNilContext c then panic nilContext
  else ret (mkRequest (req_id r) c).

(** [context.WithValue]: a nil parent panics. *)
Definition context_WithValue (parent : context) (k : ctxkey) (v : value)
  : M context :=
  if isNilContext parent then panic nilParentContext
  else ret (CtxWithValue parent k v).

(** [Context.Value]. *)
Fixpoint context_Value (c : context) (k : ctxkey) : outcome value :=
  match c with
  | CtxNil => Panicked nilDereference
  | CtxBackground => Normal VNil
  | CtxCustom _ lookup => Normal (lookup k)
  | CtxWithValue parent k' v =>
      if ctxkey_eqb k' k then Normal v else context_Value parent k
  end.

Definition lift (A : Type) (r : outcome A) : M A := fun w => (r, w).

Section Hooks.

Variable env : Env.

Definition GetParam (i : Z) : M value :=
  call (fun tr => hc_GetParam env tr i) (EvGetParam i).

Definition SetParam (i : Z) (v : value) : M unit :=
  call (fun tr => hc_SetParam env tr i v) (EvSetParam i v).

Definition GetReturnValCount : M Z :=
  call (hc_GetReturnValCount env) EvGetReturnValCount.

Definition GetReturnVal (i : Z) : M value :=
  call (fun tr => hc_GetReturnVal env tr i) (EvGetReturnVal i).

(** [time.Now] does not fail. *)
Definition Now : M Z :=
  fun w =>
    let t := time_Now env (trace w) in
    (Normal t, mkWorld (trace w ++ [EvNow t]) (heap w)).

Definition clientInstrumenter_Start (parent : context) (req : Request)
  : M context :=
  call (fun tr => client_Start env tr parent req) (EvClientStart parent req).

Definition clientInstrumenter_End (c : context) (inv : ClientInvocation)
  : M unit :=
  call (fun tr => client_End env tr c inv) (EvClientEnd c inv).

Definition serverInstrumenter_Start (parent : context) (req : Request)
  : M context :=
  call (fun tr => server_Start env tr parent req) (EvServerStart parent req).

Definition serverInstrumenter_End (c : context) (inv : ServerInvocation)
  : M unit :=
  call (fun tr => server_End env tr c inv) (EvServerEnd c inv).

Definition logError (msg : string) (rec : PanicValue) : M unit :=
  call (fun tr => logger_Error env tr msg rec) (EvLogError msg rec).

(** ** [BeforeClientDo] *)

Definition BeforeClientDo_body (client : value) : M unit :=
  p <- GetParam 1 ;;
  match p with
  | VRequest (Some req) =>
      let parentCtx := Request_Context req in
      let parentCtx :=
        if isNilContext parentCtx then CtxBackground else parentCtx in
      let clientReq := req in
      startTime <- Now ;;
      ctx <- clientInstrumenter_Start parentCtx clientReq ;;
      let instrCtx := mkClientInstr startTime clientReq ctx in
      ctx <- context_WithValue ctx clientContextKey
               (VClientInstr (Some instrCtx)) ;;
      newReq <- Request_WithContext req ctx ;;
      SetParam 1 (VRequest (Some newReq))
  | _ => ret tt
  end.

Definition BeforeClientDo (client : value) : M unit :=
  deferRecover logError "instrumentation panic in BeforeClientDo"
    (BeforeClientDo_body client).

(** ** [AfterClientDo] *)

Definition asResponse (v : value) : option nat :=
  match v with
  | VResponse r => r
  | _ => None
  end.

Definition asError (v : value) : GoError :=
  match v with
  | VError e => Some e
  | _ => None
  end.

Definition AfterClientDo_body (client : value) : M unit :=
  p <- GetParam 1 ;;
  match p with
  | VRequest (Some req) =>
      n <- GetReturnValCount ;;
      resp <- (if 1 <=? n
               then (r <- GetReturnVal 0 ;; ret (asResponse r))
               else ret None) ;;
      n <- GetReturnValCount ;;
      err <- (if 2 <=? n
              then (e <- GetReturnVal 1 ;; ret (asError e))
              else ret None) ;;
      let ctx := Request_Context req in
      if isNilContext ctx then ret tt
      else
        instrCtxVal <- lift (context_Value ctx clientContextKey) ;;
        match instrCtxVal with
        | VNil => ret tt
        | VClientInstr instrCtx =>
            let clientResp := mkClientResponse resp err in
            match instrCtx with
            | None =>
                (* [instrCtx.request] in the literal dereferences nil; the
                   literal's [time.Now()] runs before that or not at all *)
                if literal_calls_first env
                then (Now ;;; panic nilDereference)
                else panic nilDereference
            | Some (mkClientInstr startTime request ictx) =>
                endTime <- Now ;;
                let invocation :=
                  mkClientInvocation request clientResp err startTime endTime in
                clientInstrumenter_End ictx invocation
            end
        | _ => ret tt
        end
  | _ => ret tt
  end.

Definition AfterClientDo (client : value) : M unit :=
  deferRecover logError "instrumentation panic in AfterClientDo"
    (AfterClientDo_body client).

(** ** [BeforeServeHTTP] *)

(** The type assertion [.(http.ResponseWriter)]: the dynamic types that
    implement the interface. *)
Definition isResponseWriter (v : value) : bool :=
  match v with
  | VWriter _ => true
  | VWrapped _ => true
  | _ => false
  end.

Definition BeforeServeHTTP_body (sh : value) : M unit :=
  w <- GetParam 1 ;;
  if negb (isResponseWriter w) then ret tt
  else
    p <- GetParam 2 ;;
    match p with
    | VRequest (Some r) =>
        wrappedWriter <- alloc (newResponseWriter w) ;;
        let serverReq := r in
        let parentCtx := Request_Context r in
        let parentCtx :=
          if isNilContext parentCtx then CtxBackground else parentCtx in
        startTime <- Now ;;
        ctx <- serverInstrumenter_Start parentCtx serverReq ;;
        let instrCtx := mkServerInstr startTime serverReq (Some wrappedWriter) in
        ctx <- context_WithValue ctx serverContextKey
                 (VServerInstr (Some instrCtx)) ;;
        newReq <- Request_WithContext r ctx ;;
        SetParam 2 (VRequest (Some newReq)) ;;;
        SetParam 1 (VWrapped (Some wrappedWriter))
    | _ => ret tt
    end.

Definition BeforeServeHTTP (sh : value) : M unit :=
  deferRecover logError "instrumentation panic in BeforeServeHTTP"
    (BeforeServeHTTP_body sh).

(** ** [AfterServeHTTP] *)

Definition endServerInstrumentation (c : context)
  (instrCtx : option serverInstrumentationContext) : M unit :=
  match instrCtx with
  | None => ret tt
  | Some (mkServerInstr startTime request writer) =>
      rw <- match writer with
            | None => panic nilDereference
            | Some addr => load addr
            end ;;
      let serverResp := mkServerResponse (StatusCode rw) (BytesWritten rw) in
      endTime <- Now ;;
      let invocation :=
        mkServerInvocation request serverResp startTime endTime in
      serverInstrumenter_End c invocation
  end.

Definition AfterServeHTTP_body (sh : value) : M unit :=
  p <- GetParam 2 ;;
  match p with
  | VRequest (Some r) =>
      let ctx := Request_Context r in
      if isNilContext ctx then ret tt
      else
        instrCtxVal <- lift (context_Value ctx serverContextKey) ;;
        match instrCtxVal with
        | VServerInstr instrCtx => endServerInstrumentation ctx instrCtx
        | _ => ret tt
        end
  | _ => ret tt
  end.

Definition AfterServeHTTP (sh : value) : M unit :=
  deferRecover logError "instrumentation panic in AfterServeHTTP"
    (AfterServeHTTP_body sh).

End Hooks.

(** ** Reading a trace *)

(** The [SetParam] calls of a trace: index and value, in order. *)
Fixpoint setParamCalls (evs : list event) : list (Z * value) :=
  match evs with
  | [] => []
  | EvSetParam i v _ :: rest => (i, v) :: setParamCalls rest
  | _ :: rest => setParamCalls rest
  end.

(** Calls that only read the HookContext or the clock, and the log line of
    the recovery handler. *)
Definition quiet (e : event) : bool :=
  match e with
  | EvGetParam _ _ => true
  | EvGetReturnValCount _ => true
  | EvGetReturnVal _ _ => true
  | EvNow _ => true
  | EvLogError _ _ _ => true
  | _ => false
  end.

(** Every [GetReturnVal(i)] of the trace comes right after a
    [GetReturnValCount] that returned a count above [i]. [count] is the
    count just read, if the previous call read one. *)
Fixpoint readsWithinCount (count : option Z) (evs : list event) : Prop :=
  match evs with
  | [] => True
  | EvGetReturnValCount r :: rest =>
      readsWithinCount
        (match r with Normal n => Some n | Panicked _ => None end) rest
  | EvGetReturnVal i _ :: rest =>
      (exists n, count = Some n /\ 0 <= i < n) /\ readsWithinCount None rest
  | _ :: rest => readsWithinCount None rest
  end.

(** The request of a parameter slot carries the client instrumentation
    state [ic] in its context. *)
Definition carriesClientState (p : outcome value)
  (ic : clientInstrumentationContext) : Prop :=
  exists req,
    p = Normal (VRequest (Some req))
    /\ context_Value (Request_Context req) clientContextKey
       = Normal (VClientInstr (Some ic)).

(** ** Collaborators to run the hooks against *)

(** The value of slot [i] after the [SetParam] calls of a trace. *)
Fixpoint slotAfter (tr : list event) (i : Z) (v : value) : value :=
  match tr with
  | [] => v
  | EvSetParam j v' (Normal _) :: rest =>
      slotAfter rest i (if j =? i then v' else v)
  | _ :: rest => slotAfter rest i v
  end.

Definition slot (slots : list value) (i : Z) : outcome value :=
  if i <? 0 then Panicked indexOutOfRange
  else match nth_error slots (Z.to_nat i) with
       | Some v => Normal v
       | None => Panicked indexOutOfRange
       end.

(** A HookContext over parameter and return-value slots, a clock that
    counts the calls made, and instrumenters and a logger given from
    outside. The context an instrumenter returns from a successful start
    is the parent with the span attached. *)
Definition slotsEnv (params rets : list value)
  (start : context -> outcome context) (logger : outcome unit) : Env :=
  mkEnv
    (fun tr i =>
       match slot params i with
       | Normal v => Normal (slotAfter tr i v)
       | Panicked p => Panicked p
       end)
    (fun _ i _ =>
       match slot params i with
       | Normal _ => Normal tt
       | Panicked p => Panicked p
       end)
    (fun _ => Normal (Z.of_nat (List.length rets)))
    (fun _ i => slot rets i)
    (fun tr => Z.of_nat (List.length tr))
    (fun _ parent _ => start parent)
    (fun _ _ _ => Normal tt)
    (fun _ parent _ => start parent)
    (fun _ _ _ => Normal tt)
    (fun _ _ _ => logger)
    true.

Definition withSpan (parent : context) : outcome context :=
  Normal (CtxWithValue parent (otherKey 0) (VOther 0)).

Definition startFails (_ : context) : outcome context :=
  Panicked nilDereference.


Definition emptyWorld : world := mkWorld [] [].

Definition someClient : value := VOther 1.

(** A request as [Client.Do] receives it, and the same request after
    [BeforeClientDo] has run on it at time 1. *)
Definition plainRequest : Request := mkRequest 7 CtxBackground.

Definition startedState : clientInstrumentationContext :=
  mkClientInstr 1 plainRequest
    (CtxWithValue CtxBackground (otherKey 0) (VOther 0)).

Definition startedRequest : Request :=
  mkRequest 7
    (CtxWithValue (CtxWithValue CtxBackground (otherKey 0) (VOther 0))
       clientContextKey (VClientInstr (Some startedState))).

Definition clientCall : Env :=
  slotsEnv [someClient; VRequest (Some plainRequest)] [] withSpan (Normal tt).

Definition clientCallStartFails : Env :=
  slotsEnv [someClient; VRequest (Some plainRequest)] [] startFails
    (Normal tt).

(** A request whose context holds a nil pointer under the client key. *)
Definition nilStateRequest : Request :=
  mkRequest 8 (CtxWithValue CtxBackground clientContextKey (VClientInstr None)).

Definition clientCallDone : Env :=
  slotsEnv [someClient; VRequest (Some startedRequest)]
    [VResponse (Some 3%nat); VNil] withSpan (Normal tt).

End NetHTTP.

(* ================================================================== *)
(** * Further definitions: the two hooks of a call, end to end *)
(* ================================================================== *)

Module NetHTTPFlow.

Import Go.
Import ResponseWriter.
Import NetHTTP.
Local Open Scope Z_scope.

(** The calls a run has added to the trace of [w]. *)
Definition added (w w' : world) : list event :=
  skipn (List.length (trace w)) (trace w').

(** The request of a parameter slot carries the server instrumentation
    state [sc] in its context. *)
Definition carriesServerState (p : outcome value)
  (sc : serverInstrumentationContext) : Prop :=
  exists req,
    p = Normal (VRequest (Some req))
    /\ context_Value (Request_Context req) serverContextKey
       = Normal (VServerInstr (Some sc)).

(** The log lines of a trace: message and recovered value. *)
Fixpoint logLines (evs : list event) : list (string * PanicValue) :=
  match evs with
  | [] => []
  | EvLogError msg rec _ :: rest => (msg, rec) :: logLines rest
  | _ :: rest => logLines rest
  end.

(** The requests a trace ends instrumentation for, client and server. *)
Fixpoint clientEnds (evs : list event) : list (context * ClientInvocation) :=
  match evs with
  | [] => []
  | EvClientEnd c inv _ :: rest => (c, inv) :: clientEnds rest
  | _ :: rest => clientEnds rest
  end.

Fixpoint serverEnds (evs : list event) : list (context * ServerInvocation) :=
  match evs with
  | [] => []
  | EvServerEnd c inv _ :: rest => (c, inv) :: serverEnds rest
  | _ :: rest => serverEnds rest
  end.

(** The request [BeforeServeHTTP] stores for request [r]: [r] with a
    context that holds, under the server key, the start time, [r] and the
    address of the wrapper. *)
Definition servedRequest (r : Request) (c : context) (t : Z) (addr : nat)
  : Request :=
  mkRequest (req_id r)
    (CtxWithValue c serverContextKey
       (VServerInstr (Some (mkServerInstr t r (Some addr))))).

(** The request [BeforeClientDo] stores for request [r]. *)
Definition sentRequest (r : Request) (c : context) (t : Z) : Request :=
  mkRequest (req_id r)
    (CtxWithValue c clientContextKey
       (VClientInstr (Some (mkClientInstr t r c)))).

(** What [BeforeServeHTTP] has done once it has stored request [r']: the
    writer [wv] of parameter 1 is wrapped by a fresh wrapper at the end of
    the heap, and [r'] is the request [r] of parameter 2 with the state
    that points to that wrapper, holds the time [t] read from the clock
    and sits on the context [c] that the instrumenter returned for [r]. *)
Definition wrapped (env : Env) (w w1 : world) (r' : Request) : Prop :=
  exists wv r t c,
    hc_GetParam env (trace w) 1 = Normal wv
    /\ isResponseWriter wv = true
    /\ hc_GetParam env (trace w ++ [EvGetParam 1 (Normal wv)]) 2
       = Normal (VRequest (Some r))
    /\ r' = servedRequest r c t (List.length (heap w))
    /\ heap w1 = (heap w ++ [newResponseWriter wv])%list
    /\ In (EvNow t) (added w w1)
    /\ In (EvServerStart (Request_Context r) r (Normal c)) (added w w1).

(** The write-backs of [BeforeServeHTTP] are the request, then the
    writer. *)
Definition serverWriteBacks (env : Env) (w w1 : world)
  (sets : list (Z * value)) : Prop :=
  match sets with
  | [] => True
  | [(2, VRequest (Some r'))] => wrapped env w w1 r'
  | [(2, VRequest (Some r')); (1, VWrapped (Some addr))] =>
      wrapped env w w1 r' /\ addr = List.length (heap w)
  | _ => False
  end.

(** The value a trace has read for return value [i], if it has read it. *)
Fixpoint returnValRead (i : Z) (evs : list event) : option value :=
  match evs with
  | [] => None
  | EvGetReturnVal j (Normal v) :: rest =>
      if j =? i then Some v else returnValRead i rest
  | _ :: rest => returnValRead i rest
  end.

(** A HookContext that tells its number of return values, and lets an
    index below the count it has just told be read. *)
Definition returnValsReadable (env : Env) : Prop :=
  (forall tr, exists n, hc_GetReturnValCount env tr = Normal n)
  /\ (forall tr n i,
        hc_GetReturnValCount env tr = Normal n ->
        0 <= i < n ->
        exists v,
          hc_GetReturnVal env (tr ++ [EvGetReturnValCount (Normal n)]) i
          = Normal v).

(** ** The handler between the two server hooks *)

Fixpoint replaceNth (A : Type) (n : nat) (x : A) (l : list A) : list A :=
  match n, l with
  | _, [] => []
  | O, _ :: rest => x :: rest
  | S n', y :: rest => y :: replaceNth n' x rest
  end.

(** The handler of the server makes [calls] on the wrapper at [addr],
    whose wrapped writer behaves as [u]. *)
Definition serveWith (u : Underlying) (calls : list Call) (addr : nat)
  (w : world) : world :=
  match nth_error (heap w) addr with
  | Some rw =>
      mkWorld (trace w) (replaceNth addr (fst (run u calls (rw, []))) (heap w))
  | None => w
  end.

(** A server call: a writer and a request in the parameter slots. *)
Definition serverCall : Env :=
  slotsEnv [someClient; VWriter 5; VRequest (Some plainRequest)] []
    withSpan (Normal tt).

End NetHTTPFlow.


(* ================================================================== *)
(** * Further definitions: the optional interfaces of the response writer *)
(* ================================================================== *)

Module ResponseWriterFull.

Import Go.
Import ResponseWriter.
Local Open Scope Z_scope.

(** [http.ErrNotSupported]. *)
Definition ErrNotSupported : GoError := Some 0%nat.

(** What [Hijack] returns: a [net.Conn], a [*bufio.ReadWriter] and an
    error. *)
Definition Hijacked : Type := (option nat * option nat * GoError)%type.

(** One call that reached the wrapped writer, through
    [http.ResponseWriter] or through one of the optional interfaces, with
    the way it ended. *)
Inductive WriterCall : Type :=
| WBasic (c : UnderlyingCall)
| WFlush (r : outcome unit)
| WHijack (r : outcome Hijacked)
| WPush (target : string) (opts : option nat) (r : outcome GoError).

(** The wrapped writer with its dynamic type: it implements [http.Flusher],
    [http.Hijacker] and [http.Pusher], or it does not. What a call does may
    depend on all the calls the writer has seen, and a call may panic. *)
Record Wrapped : Type := mkWrapped {
  wWriteHeader : list WriterCall -> Z -> outcome unit;
  wWrite : list WriterCall -> list Byte.byte -> outcome (Z * GoError);
  asFlusher : option (list WriterCall -> outcome unit);
  asHijacker : option (list WriterCall -> outcome Hijacked);
  asPusher :
    option (list WriterCall -> string -> option nat -> outcome GoError)
}.

(** The wrapper together with all the calls its wrapped writer has
    received. *)
Definition fullState (W : Type) : Type :=
  (responseWriter W * list WriterCall)%type.

(** The [http.ResponseWriter] side of a wrapped writer that has received
    the calls [h]. *)
Definition after (U : Wrapped) (h : list WriterCall) : Underlying :=
  mkUnderlying (fun calls => wWriteHeader U (h ++ map WBasic calls))
    (fun calls => wWrite U (h ++ map WBasic calls)).

Section Methods.

Variable W : Type.
Variable U : Wrapped.

(** [WriteHeader] and [Write] of the wrapper, on a wrapped writer that has
    a history. *)
Definition WriteHeaderAfter (code : Z) (st : fullState W)
  : outcome unit * fullState W :=
  let (rw, h) := st in
  let (r, st') := WriteHeader (after U h) code (rw, []) in
  (r, (fst st', h ++ map WBasic (snd st'))).

Definition WriteAfter (b : list Byte.byte) (st : fullState W)
  : outcome (Z * GoError) * fullState W :=
  let (rw, h) := st in
  let (r, st') := Write (after U h) b (rw, []) in
  (r, (fst st', h ++ map WBasic (snd st'))).

Definition Flush (st : fullState W) : outcome unit * fullState W :=
  let (rw, h) := st in
  match asFlusher U with
  | Some flush =>
      let r := flush h in
      (r, (rw, h ++ [WFlush r]))
  | None => (Normal tt, st)
  end.

Definition Hijack (st : fullState W) : outcome Hijacked * fullState W :=
  let (rw, h) := st in
  match asHijacker U with
  | Some hijack =>
      let r := hijack h in
      (r, (rw, h ++ [WHijack r]))
  | None => (Normal (None, None, ErrNotSupported), st)
  end.

Definition Push (target : string) (opts : option nat) (st : fullState W)
  : outcome GoError * fullState W :=
  let (rw, h) := st in
  match asPusher U with
  | Some push =>
      let r := push h target opts in
      (r, (rw, h ++ [WPush target opts r]))
  | None => (Normal ErrNotSupported, st)
  end.

(** ** Sequences of calls made by a handler *)

Inductive Method : Type :=
| MWriteHeader (code : Z)
| MWrite (b : list Byte.byte)
| MFlush
| MHijack
| MPush (target : string) (opts : option nat).

Definition stepMethod (m : Method) (st : fullState W) : fullState W :=
  match m with
  | MWriteHeader code => snd (WriteHeaderAfter code st)
  | MWrite b => snd (WriteAfter b st)
  | MFlush => snd (Flush st)
  | MHijack => snd (Hijack st)
  | MPush target opts => snd (Push target opts st)
  end.

(** As [run]: the handler goes on after a call that panicked if it
    recovers. *)
Definition runMethods (ms : list Method) (st : fullState W) : fullState W :=
  fold_left (fun s m => stepMethod m s) ms st.

(** Does the wrapped writer implement the interface behind the method? *)
Definition reaches (m : Method) : bool :=
  match m with
  | MWriteHeader _ | MWrite _ => false
  | MFlush => match asFlusher U with Some _ => true | None => false end
  | MHijack => match asHijacker U with Some _ => true | None => false end
  | MPush _ _ => match asPusher U with Some _ => true | None => false end
  end.

End Methods.

(** The calls the wrapped writer has received as an
    [http.ResponseWriter]. *)
Fixpoint basicLog (h : list WriterCall) : list UnderlyingCall :=
  match h with
  | [] => []
  | WBasic c :: rest => c :: basicLog rest
  | _ :: rest => basicLog rest
  end.

(** The calls it has received through the optional interfaces. *)
Fixpoint optionalLog (h : list WriterCall) : list Method :=
  match h with
  | [] => []
  | WBasic _ :: rest => optionalLog rest
  | WFlush _ :: rest => MFlush :: optionalLog rest
  | WHijack _ :: rest => MHijack :: optionalLog rest
  | WPush target opts _ :: rest => MPush target opts :: optionalLog rest
  end.

(** The [WriteHeader] and [Write] calls among the calls of a handler. *)
Fixpoint writesOf (ms : list Method) : list Call :=
  match ms with
  | [] => []
  | MWriteHeader code :: rest => CallWriteHeader code :: writesOf rest
  | MWrite b :: rest => CallWrite b :: writesOf rest
  | _ :: rest => writesOf rest
  end.

(** A plain writer and a streaming one; a handler that flushes before it
    sets the status. *)
Definition plainWriter : Wrapped :=
  mkWrapped (fun _ _ => Normal tt)
    (fun _ b => Normal (Z.of_nat (List.length b), None)) None None None.

Definition streamingWriter : Wrapped :=
  mkWrapped (fun _ _ => Normal tt)
    (fun _ b => Normal (Z.of_nat (List.length b), None))
    (Some (fun _ => Normal tt)) None None.

Definition flushingHandler : list Method :=
  [MFlush; MWriteHeader 404; MWrite [Byte.x68; Byte.x69]; MHijack; MFlush].

End ResponseWriterFull.

(* ================================================================== *)
(** * Further definitions: a response writer around a response writer *)
(* ================================================================== *)

Module ResponseWriterNested.

Import Go.
Import ResponseWriter.
Local Open Scope Z_scope.

(** The method call behind a call that reached a writer. *)
Definition callOf (c : UnderlyingCall) : Call :=
  match c with
  | UWriteHeader code _ => CallWriteHeader code
  | UWrite b _ => CallWrite b
  end.

Section Nested.

Variable W : Type.
Variable u : Underlying.
Variable w : W.

(** A [responseWriter] made around [w] that has received [calls]. *)
Definition innerAfter (calls : list UnderlyingCall) : state W :=
  run u (map callOf calls) (newResponseWriter w, []).

(** That [responseWriter] as the [http.ResponseWriter] another one wraps:
    when handlers are nested, the hook of the inner handler wraps the
    wrapper the hook of the outer one has put in place. *)
Definition wrapper : Underlying :=
  mkUnderlying
    (fun calls code => fst (WriteHeader u code (innerAfter calls)))
    (fun calls b => fst (Write u b (innerAfter calls))).

End Nested.

End ResponseWriterNested.

(* ================================================================== *)
(** * Further definitions: the attribute getters of the client *)
(* ================================================================== *)

Module ClientGetters.

Import Go.
Import NetHTTP.
Local Open Scope string_scope.
Local Open Scope Z_scope.

(** [strconv.Itoa]: the decimal text of an [int]. *)
Definition Itoa (n : Z) : string := NilEmpty.string_of_int (Z.to_int n).

(** The number a decimal text stands for. *)
Definition decimalValue (s : string) : option Z :=
  option_map Z.of_int (NilEmpty.int_of_string s).

(** The field of an [http.Response] the getters below read. *)
Record HTTPResponse : Type := mkHTTPResponse {
  StatusCode : Z
}.

Section Getters.

(** What the response pointers point to. *)
Variable deref : nat -> HTTPResponse.

Definition GetHTTPResponseStatusCode (req : Request) (resp : ClientResponse)
  (err : GoError) : Z :=
  match err, Response resp with
  | Some _, _ => 0
  | None, None => 0
  | None, Some p => StatusCode (deref p)
  end.

Definition GetErrorType (req : Request) (resp : ClientResponse)
  (err : GoError) : string :=
  match err with
  | Some _ => "error"
  | None =>
      match Response resp with
      | None => ""
      | Some p =>
          let statusCode := StatusCode (deref p) in
          if (400 <=? statusCode) && (statusCode <? 600)
          then Itoa statusCode
          else ""
      end
  end.

End Getters.

(** Responses by their status code. *)
Definition withStatus (code : nat) : HTTPResponse :=
  mkHTTPResponse (Z.of_nat code).

End ClientGetters.

(* ================================================================== *)
(** * Further definitions: the span validators of the test helpers *)
(* ================================================================== *)

Module App.

Local Open Scope string_scope.
Local Open Scope list_scope.

Section Validate.

(** Values of type [any], attribute values with their conversion to [any],
    and the comparison [require.Equal] makes. *)
Variable any : Type.
Variable attrValue : Type.
Variable AsInterface : attrValue -> any.
Variable ObjectsAreEqual : any -> any -> bool.

(** [attribute.KeyValue]. *)
Record KeyValue : Type := mkKeyValue {
  Key : string;
  Value : attrValue
}.

(** A [map[string]any]: its lookup, and an assignment to a key. *)
Definition goMap : Type := string -> option any.

Definition emptyMap : goMap := fun _ => None.

Definition mapSet (m : goMap) (key : string) (v : any) : goMap :=
  fun k => if String.eqb key k then Some v else m k.

(** Why a validator fails the test. The test stops at the first failure. *)
Inductive Failure : Type :=
| AttributeNotFound (key : string)
| UnexpectedValue (key : string) (expected actual : any).

Definition attrMapOf (attrs : list KeyValue) : goMap :=
  fold_left (fun m attr => mapSet m (Key attr) (AsInterface (Value attr)))
    attrs emptyMap.

(** The loop over [expectedAttrs]; [visited] lists the entries of the map
    in the order the [range] statement happens to visit them. *)
Fixpoint checkExpected (attrMap : goMap) (visited : list (string * any))
  : option Failure :=
  match visited with
  | [] => None
  | (key, expectedValue) :: rest =>
      match attrMap key with
      | None => Some (AttributeNotFound key)
      | Some actualValue =>
          if ObjectsAreEqual expectedValue actualValue
          then checkExpected attrMap rest
          else Some (UnexpectedValue key expectedValue actualValue)
      end
  end.

Definition ValidateSpanAttributes (attrs : list KeyValue)
  (visited : list (string * any)) : option Failure :=
  checkExpected (attrMapOf attrs) visited.

Fixpoint ValidateSpanHasAttribute (attrs : list KeyValue) (key : string)
  : option Failure :=
  match attrs with
  | [] => Some (AttributeNotFound key)
  | attr :: rest =>
      if String.eqb (Key attr) key then None
      else ValidateSpanHasAttribute rest key
  end.

(** The last attribute of a span with a given key. *)
Definition lastWithKey (key : string) (attrs : list KeyValue)
  : option KeyValue :=
  List.find (fun attr => String.eqb (Key attr) key) (List.rev attrs).

End Validate.

End App.
(* ================================================================== *)
(** * Part V: properties of the dispatcher generator *)
(* ================================================================== *)

Unset Implicit Arguments.

Module InstrumentProofs.

Import Instrument.
Local Open Scope string_scope.
Local Open Scope list_scope.
Local Open Scope nat_scope.

(** ** The test tables, evaluated *)

Example before_all_parameters :
  beforeCallOf (callBeforeHook (beforePhase [fReceiver; fP1; fP2]) testRule
                  [plain; plain; plain; plain])
  = Some ("TestBefore",
          [NewHookContext; Ident "receiver"; Ident "p1"; Ident "p2"]).
Proof. reflexivity. Qed.

Example before_subset :
  beforeCallOf (callBeforeHook (beforePhase [fReceiver; fP1; fP2]) testRule
                  [plain; plain])
  = Some ("TestBefore", [NewHookContext; Ident "receiver"]).
Proof. reflexivity. Qed.

Example before_too_many :
  errorOf (callBeforeHook (beforePhase [fP1]) testRule [plain; plain; plain])
  = Some "hook declares 3 params but target function only has 2 params available".
Proof. reflexivity. Qed.

Example before_variadic :
  beforeCallOf (callBeforeHook (beforePhase [fItems]) testRule [plain; variadic])
  = Some ("TestBefore", [NewHookContext; Forward (Ident "items")]).
Proof. reflexivity. Qed.

Example after_subset :
  afterCallOf (callAfterHook contextFromFormal (afterPhase [fCtx; fReceiver; fP1; fR1; fR2])
                 testRule [plain; plain; plain])
  = Some ("TestAfter", [Ident "ctx"; Ident "receiver"; Ident "p1"]).
Proof. reflexivity. Qed.

Example after_too_many :
  errorOf (callAfterHook contextFromFormal (afterPhase [fCtx; fP1]) testRule [plain; plain; plain])
  = Some "hook declares 3 params but trampoline only has 2 params available".
Proof. reflexivity. Qed.

Example after_context_only :
  afterCallOf (callAfterHook contextFromFormal (afterPhase [fCtx; fP1; fP2]) testRule [plain])
  = Some ("TestAfter", [Ident "ctx"]).
Proof. reflexivity. Qed.

(** ** Matching *)

Lemma matchFormals_length (traits : list ParamTrait) :
  forall formals,
    List.length (matchFormals traits formals)
    = Nat.min (List.length traits) (List.length formals).
Proof.
  induction traits as [|t traits IH]; intros [|f formals]; simpl; auto.
Qed.

Lemma matchFormals_nth (traits : list ParamTrait) :
  forall formals i t f,
    nth_error traits i = Some t ->
    nth_error formals i = Some f ->
    nth_error (matchFormals traits formals) i = Some (formalArg t f).
Proof.
  induction traits as [|t0 traits IH]; intros formals i t f Ht Hf.
  - destruct i; discriminate.
  - destruct formals as [|f0 formals]; [destruct i; discriminate|].
    destruct i as [|i]; simpl in *.
    + congruence.
    + eauto.
Qed.

Lemma beforeArgs_length (traits : list ParamTrait) (formals : list Field) :
  List.length traits <= List.length formals + 1 ->
  List.length (beforeArgs traits formals) = List.length traits.
Proof.
  destruct traits as [|t traits]; simpl; intros H; auto.
  rewrite matchFormals_length. lia.
Qed.

Lemma afterArgs_length (afterContext : Field -> Expr)
  (traits : list ParamTrait) (formals : list Field) :
  List.length traits <= List.length formals ->
  List.length (afterArgs afterContext traits formals) = List.length traits.
Proof.
  destruct traits as [|t traits]; destruct formals as [|c formals];
    simpl; intros H; auto; try lia.
  rewrite matchFormals_length. lia.
Qed.

(** ** Insertion *)

Lemma insertAt_before_last (pre : list Stmt) (last stmt : Stmt) :
  insertAt (pre ++ [last]) stmt (Z.of_nat (List.length (pre ++ [last])) - 1)
  = Ok (pre ++ [stmt; last]).
Proof.
  unfold insertAt. rewrite length_app. simpl.
  replace (Z.of_nat (List.length pre + 1) - 1)%Z with (Z.of_nat (List.length pre))
    by lia.
  destruct (Z.ltb_spec (Z.of_nat (List.length pre)) 0); [lia|].
  destruct (Z.ltb_spec (Z.of_nat (List.length pre + 1))
                       (Z.of_nat (List.length pre))); [lia|].
  rewrite Nat2Z.id.
  rewrite firstn_app, firstn_all, Nat.sub_diag. simpl. rewrite app_nil_r.
  rewrite skipn_app, skipn_all, Nat.sub_diag. simpl. reflexivity.
Qed.

Lemma insertAt_never_arity (body : list Stmt) (stmt : Stmt) (idx : Z) k d a :
  insertAt body stmt idx <> Err (HookArityError k d a).
Proof.
  unfold insertAt.
  destruct (idx <? 0)%Z; [discriminate|].
  destruct (Z.of_nat (List.length body) <? idx)%Z; discriminate.
Qed.

(** ** What the dispatcher returns *)

Lemma callBeforeHook_over_arity ip t traits :
  List.length (Params (beforeHookFunc ip)) + 1 < List.length traits ->
  callBeforeHook ip t traits
  = Err (HookArityError KBefore (List.length traits)
           (List.length (Params (beforeHookFunc ip)) + 1)).
Proof.
  intros H. unfold callBeforeHook.
  destruct (Nat.ltb_spec (List.length (Params (beforeHookFunc ip)) + 1)
                         (List.length traits)); [reflexivity | lia].
Qed.

Lemma callBeforeHook_within_arity ip t traits :
  List.length traits <= List.length (Params (beforeHookFunc ip)) + 1 ->
  callBeforeHook ip t traits
  = match insertAt (Body (beforeHookFunc ip))
            (guardedCall (RuleName t) (Before t)
               (beforeArgs traits (Params (beforeHookFunc ip))))
            (Z.of_nat (List.length (Body (beforeHookFunc ip))) - 1) with
    | Err e => Err e
    | Ok body =>
        Ok (mkPhase (targetFunc ip) (setBody (beforeHookFunc ip) body)
              (afterHookFunc ip))
    end.
Proof.
  intros H. unfold callBeforeHook.
  destruct (Nat.ltb_spec (List.length (Params (beforeHookFunc ip)) + 1)
                         (List.length traits)); [lia | reflexivity].
Qed.

Lemma callAfterHook_over_arity afterContext ip t traits :
  List.length (Params (afterHookFunc ip)) < List.length traits ->
  callAfterHook afterContext ip t traits
  = Err (HookArityError KAfter (List.length traits)
           (List.length (Params (afterHookFunc ip)))).
Proof.
  intros H. unfold callAfterHook.
  destruct (Nat.ltb_spec (List.length (Params (afterHookFunc ip)))
                         (List.length traits)); [reflexivity | lia].
Qed.

Lemma callAfterHook_within_arity afterContext ip t traits :
  List.length traits <= List.length (Params (afterHookFunc ip)) ->
  callAfterHook afterContext ip t traits
  = match insertAt (Body (afterHookFunc ip))
            (guardedCall (RuleName t) (After t)
               (afterArgs afterContext traits (Params (afterHookFunc ip))))
            (Z.of_nat (List.length (Body (afterHookFunc ip))) - 1) with
    | Err e => Err e
    | Ok body =>
        Ok (mkPhase (targetFunc ip) (beforeHookFunc ip)
              (setBody (afterHookFunc ip) body))
    end.
Proof.
  intros H. unfold callAfterHook.
  destruct (Nat.ltb_spec (List.length (Params (afterHookFunc ip)))
                         (List.length traits)); [lia | reflexivity].
Qed.

Lemma callBeforeHook_ok_arity ip t traits ip' :
  callBeforeHook ip t traits = Ok ip' ->
  List.length traits <= List.length (Params (beforeHookFunc ip)) + 1.
Proof.
  intros H.
  destruct (Nat.le_gt_cases (List.length traits)
              (List.length (Params (beforeHookFunc ip)) + 1)) as [|Hgt]; auto.
  rewrite (callBeforeHook_over_arity ip t traits Hgt) in H. discriminate.
Qed.

Lemma callAfterHook_ok_arity afterContext ip t traits ip' :
  callAfterHook afterContext ip t traits = Ok ip' ->
  List.length traits <= List.length (Params (afterHookFunc ip)).
Proof.
  intros H.
  destruct (Nat.le_gt_cases (List.length traits)
              (List.length (Params (afterHookFunc ip)))) as [|Hgt]; auto.
  rewrite (callAfterHook_over_arity afterContext ip t traits Hgt) in H.
  discriminate.
Qed.

(** ** The text of the arity errors *)

Lemma Contains_intro (pre sub post : string) :
  Contains (pre ++ sub ++ post)%string sub.
Proof. exists pre, post. reflexivity. Qed.

Lemma append_assoc (a b c : string) :
  ((a ++ b) ++ c)%string = (a ++ b ++ c)%string.
Proof. induction a as [|x a IH]; simpl; [reflexivity | now rewrite IH]. Qed.

Lemma arity_text_counts (k : TrampolineKind) (d a : nat) :
  Contains (ErrorText (HookArityError k d a)) (itoa d)
  /\ Contains (ErrorText (HookArityError k d a)) (itoa a).
Proof.
  split.
  - destruct k; apply Contains_intro.
  - destruct k; simpl.
    + exists ("hook declares " ++ itoa d
              ++ " params but target function only has ")%string,
             " params available".
      now rewrite !append_assoc.
    + exists ("hook declares " ++ itoa d
              ++ " params but trampoline only has ")%string,
             " params available".
      now rewrite !append_assoc.
Qed.

(** ** Where the guarded call ends up *)

Lemma callHook_trailing (k : TrampolineKind) (afterContext : Field -> Expr)
  (ip ip' : InstrumentPhase) (t : InstFuncRule) (traits : list ParamTrait)
  (pre : list Stmt) (last : Stmt) :
  Body (trampoline k ip) = pre ++ [last] ->
  callHook k afterContext ip t traits = Ok ip' ->
  exists args,
    Body (trampoline k ip')
    = pre ++ [guardedCall (RuleName t) (hookName k t) args; last]
    /\ List.length args = List.length traits
    /\ args = match k with
              | KBefore => beforeArgs traits (Params (beforeHookFunc ip))
              | KAfter =>
                  afterArgs afterContext traits (Params (afterHookFunc ip))
              end
    /\ Params (trampoline k ip') = Params (trampoline k ip).
Proof.
  intros Hbody Hcall. destruct k; simpl in *.
  - pose proof (callBeforeHook_ok_arity _ _ _ _ Hcall) as Har.
    rewrite (callBeforeHook_within_arity ip t traits Har) in Hcall.
    rewrite Hbody, insertAt_before_last in Hcall.
    injection Hcall as <-. simpl.
    eexists. repeat split. now apply beforeArgs_length.
  - pose proof (callAfterHook_ok_arity _ _ _ _ _ Hcall) as Har.
    rewrite (callAfterHook_within_arity afterContext ip t traits Har) in Hcall.
    rewrite Hbody, insertAt_before_last in Hcall.
    injection Hcall as <-. simpl.
    eexists. repeat split. now apply afterArgs_length.
Qed.

Lemma callHook_ok_body (k : TrampolineKind) (afterContext : Field -> Expr)
  (ip ip' : InstrumentPhase) (t : InstFuncRule) (traits : list ParamTrait) :
  callHook k afterContext ip t traits = Ok ip' ->
  exists pre last, Body (trampoline k ip) = pre ++ [last].
Proof.
  intros Hcall.
  destruct (Body (trampoline k ip)) as [|s body] eqn:Hb.
  - exfalso. destruct k; simpl in *.
    + pose proof (callBeforeHook_ok_arity _ _ _ _ Hcall) as Har.
      rewrite (callBeforeHook_within_arity ip t traits Har), Hb in Hcall.
      discriminate.
    + pose proof (callAfterHook_ok_arity _ _ _ _ _ Hcall) as Har.
      rewrite (callAfterHook_within_arity afterContext ip t traits Har), Hb
        in Hcall.
      discriminate.
  - destruct (exists_last (l := s :: body)) as [pre [last E]]; [discriminate|].
    exists pre, last. exact E.
Qed.

Lemma emittedCall_trailing (fn : FuncDecl) (pre : list Stmt)
  (rule hook : string) (args : list Expr) (last : Stmt) :
  Body fn = pre ++ [guardedCall rule hook args; last] ->
  emittedCall fn = Some (hook, args).
Proof.
  intros E. unfold emittedCall, emittedStmt. rewrite E, length_app. simpl.
  replace (List.length pre + 2 - 2) with (List.length pre + 0) by lia.
  rewrite nth_error_app2 by lia.
  replace (List.length pre + 0 - List.length pre) with 0 by lia.
  reflexivity.
Qed.

Lemma callHook_emittedCall (k : TrampolineKind) (afterContext : Field -> Expr)
  (ip ip' : InstrumentPhase) (t : InstFuncRule) (traits : list ParamTrait) :
  callHook k afterContext ip t traits = Ok ip' ->
  exists args,
    emittedCall (trampoline k ip') = Some (hookName k t, args)
    /\ List.length args = List.length traits
    /\ args = match k with
              | KBefore => beforeArgs traits (Params (beforeHookFunc ip))
              | KAfter =>
                  afterArgs afterContext traits (Params (afterHookFunc ip))
              end.
Proof.
  intros Hcall.
  destruct (callHook_ok_body _ _ _ _ _ _ Hcall) as [pre [last Hb]].
  destruct (callHook_trailing _ _ _ _ _ _ _ _ Hb Hcall) as [args [E [L [A _]]]].
  exists args. split; [|split]; auto.
  eapply emittedCall_trailing. exact E.
Qed.

(** ** The arguments of the generated call *)

(** From position 1 on, the arguments are the trampoline's formals in
    order, as many as the hook has traits left. *)
Lemma matchFormals_sources (traits : list ParamTrait) :
  forall formals,
    List.length traits <= List.length formals ->
    map argSource (matchFormals traits formals)
    = map (fun f => Some (Name f)) (firstn (List.length traits) formals).
Proof.
  induction traits as [|t traits IH]; intros [|f formals] Hlen; simpl in *;
    try reflexivity; try lia.
  rewrite IH by lia. unfold formalArg. destruct (IsVariadic t); reflexivity.
Qed.

Lemma callHook_argument_sources (k : TrampolineKind)
  (afterContext : Field -> Expr) (ip ip' : InstrumentPhase)
  (t : InstFuncRule) (traits : list ParamTrait) :
  callHook k afterContext ip t traits = Ok ip' ->
  exists args,
    emittedCall (trampoline k ip') = Some (hookName k t, args)
    /\ List.length args = List.length traits
    /\ List.length traits <= available k ip
    /\ map argSource (tl args)
       = map (fun f => Some (Name f))
           (firstn (List.length traits - 1)
              (match k with
               | KBefore => Params (beforeHookFunc ip)
               | KAfter => tl (Params (afterHookFunc ip))
               end))
    /\ (traits <> [] ->
        hd_error args
        = match k with
          | KBefore => Some NewHookContext
          | KAfter => option_map afterContext (hd_error (Params (afterHookFunc ip)))
          end).
Proof.
  intros Hcall.
  destruct (callHook_emittedCall _ _ _ _ _ _ Hcall) as [args [Hem [Hlen Hargs]]].
  exists args. split; [exact Hem | split; [exact Hlen |]].
  destruct k; simpl in *.
  - pose proof (callBeforeHook_ok_arity _ _ _ _ Hcall) as Har.
    split; [exact Har |]. subst args.
    destruct traits as [|t0 traits]; simpl in *.
    + split; [reflexivity | congruence].
    + rewrite Nat.sub_0_r. split; [apply matchFormals_sources; lia | reflexivity].
  - pose proof (callAfterHook_ok_arity _ _ _ _ _ Hcall) as Har.
    split; [exact Har |]. subst args.
    destruct traits as [|t0 traits]; simpl in *.
    + split; [reflexivity | congruence].
    + destruct (Params (afterHookFunc ip)) as [|c formals]; simpl in *; [lia|].
      rewrite Nat.sub_0_r.
      split; [apply matchFormals_sources; lia | reflexivity].
Qed.

(** The two readings of the After hook's context disagree on the first
    argument, and on nothing else. *)
Example after_context_readings :
  afterCallOf (callAfterHook contextFromFormal (afterPhase [fCtx; fP1; fP2])
                 testRule [plain; plain])
  = Some ("TestAfter", [Ident "ctx"; Ident "p1"])
  /\ afterCallOf (callAfterHook contextConstructed (afterPhase [fCtx; fP1; fP2])
                    testRule [plain; plain])
     = Some ("TestAfter", [NewHookContext; Ident "p1"]).
Proof. split; reflexivity. Qed.

(** ** Claims *)

(** C2. Generating the dispatch for the Before trampoline fails with an
    arity error exactly when the hook declares more traits than one plus the
    trampoline's formals ([|H| - 1 > |A|]), for the After trampoline exactly
    when the traits outnumber its formals ([|H| > |A|]); the text of every
    such error contains the declared count [|H|] and the available count
    ([|A| + 1] for Before, [|A|] for After). *)
Theorem arity_error_exactly_when_over_declared
  (afterContext : Field -> Expr) (ip : InstrumentPhase) (t : InstFuncRule)
  (traits : list ParamTrait) :
  let H := Z.of_nat (List.length traits) in
  let AB := Z.of_nat (List.length (Params (beforeHookFunc ip))) in
  let AA := Z.of_nat (List.length (Params (afterHookFunc ip))) in
  ((exists k d a, callBeforeHook ip t traits = Err (HookArityError k d a))
     <-> (H - 1 > AB)%Z)
  /\ ((exists k d a,
         callAfterHook afterContext ip t traits = Err (HookArityError k d a))
     <-> (H > AA)%Z)
  /\ (forall k d a,
        callBeforeHook ip t traits = Err (HookArityError k d a) ->
        Z.of_nat d = H /\ Z.of_nat a = (AB + 1)%Z
        /\ Contains (ErrorText (HookArityError k d a)) (itoa d)
        /\ Contains (ErrorText (HookArityError k d a)) (itoa a))
  /\ (forall k d a,
        callAfterHook afterContext ip t traits = Err (HookArityError k d a) ->
        Z.of_nat d = H /\ Z.of_nat a = AA
        /\ Contains (ErrorText (HookArityError k d a)) (itoa d)
        /\ Contains (ErrorText (HookArityError k d a)) (itoa a)).
Proof.
  intros H AB AA. subst H AB AA.
  assert (HB : forall k d a,
             callBeforeHook ip t traits = Err (HookArityError k d a) ->
             List.length (Params (beforeHookFunc ip)) + 1 < List.length traits).
  { intros k d a E.
    destruct (Nat.le_gt_cases (List.length traits)
                (List.length (Params (beforeHookFunc ip)) + 1)) as [Hle|]; auto.
    rewrite (callBeforeHook_within_arity ip t traits Hle) in E.
    destruct (insertAt _ _ _) eqn:Hi; [discriminate|].
    injection E as ->. exfalso. eapply insertAt_never_arity. exact Hi. }
  assert (HA : forall k d a,
             callAfterHook afterContext ip t traits
             = Err (HookArityError k d a) ->
             List.length (Params (afterHookFunc ip)) < List.length traits).
  { intros k d a E.
    destruct (Nat.le_gt_cases (List.length traits)
                (List.length (Params (afterHookFunc ip)))) as [Hle|]; auto.
    rewrite (callAfterHook_within_arity afterContext ip t traits Hle) in E.
    destruct (insertAt _ _ _) eqn:Hi; [discriminate|].
    injection E as ->. exfalso. eapply insertAt_never_arity. exact Hi. }
  repeat split.
  - intros [k [d [a E]]]. apply HB in E. lia.
  - intros Hgt. do 3 eexists. apply callBeforeHook_over_arity. lia.
  - intros [k [d [a E]]]. apply HA in E. lia.
  - intros Hgt. do 3 eexists. apply callAfterHook_over_arity. lia.
  - pose proof (HB _ _ _ H) as Hlt.
    rewrite (callBeforeHook_over_arity ip t traits Hlt) in H.
    injection H as _ <- _. reflexivity.
  - pose proof (HB _ _ _ H) as Hlt.
    rewrite (callBeforeHook_over_arity ip t traits Hlt) in H.
    injection H as _ _ <-. lia.
  - apply arity_text_counts.
  - apply arity_text_counts.
  - pose proof (HA _ _ _ H) as Hlt.
    rewrite (callAfterHook_over_arity afterContext ip t traits Hlt) in H.
    injection H as _ <- _. reflexivity.
  - pose proof (HA _ _ _ H) as Hlt.
    rewrite (callAfterHook_over_arity afterContext ip t traits Hlt) in H.
    injection H as _ _ <-. reflexivity.
  - apply arity_text_counts.
  - apply arity_text_counts.
Qed.

(** C3. When the dispatch is generated for a trampoline whose body ends in a
    plain return, an [if] statement is put into the body in front of that
    return; the first statement of its body is an expression statement whose
    expression is the call of the hook, and the plain return stays the last
    statement of the body. *)
Theorem guarded_call_before_trailing_return
  (k : TrampolineKind) (afterContext : Field -> Expr)
  (ip ip' : InstrumentPhase) (t : InstFuncRule) (traits : list ParamTrait)
  (pre : list Stmt) :
  Body (trampoline k ip) = pre ++ [ReturnStmt] ->
  callHook k afterContext ip t traits = Ok ip' ->
  exists cond args rest,
    Body (trampoline k ip')
    = pre ++ [IfStmt cond (ExprStmt (CallExpr (hookName k t) args) :: rest);
              ReturnStmt]
    /\ List.last (Body (trampoline k ip')) (ExprStmt NewHookContext)
       = ReturnStmt.
Proof.
  intros Hbody Hcall.
  destruct (callHook_trailing _ _ _ _ _ _ _ _ Hbody Hcall) as [args [E _]].
  exists (HooksEnabled (RuleName t)), args, []. split.
  - exact E.
  - rewrite E.
    replace (pre ++ [guardedCall (RuleName t) (hookName k t) args; ReturnStmt])
      with ((pre ++ [guardedCall (RuleName t) (hookName k t) args])
              ++ [ReturnStmt])
      by (rewrite <- app_assoc; reflexivity).
    apply last_last.
Qed.

Lemma guarded_call_before_trailing_return_witness :
  exists ip',
    callHook KBefore contextFromFormal (beforePhase [fReceiver; fP1; fP2])
      testRule [plain; plain] = Ok ip'
    /\ exists cond args rest,
         Body (trampoline KBefore ip')
         = [] ++ [IfStmt cond
                    (ExprStmt (CallExpr (hookName KBefore testRule) args)
                       :: rest);
                  ReturnStmt]
         /\ List.last (Body (trampoline KBefore ip')) (ExprStmt NewHookContext)
            = ReturnStmt.
Proof.
  eexists. split.
  - reflexivity.
  - apply (guarded_call_before_trailing_return KBefore contextFromFormal
             (beforePhase [fReceiver; fP1; fP2]) _ testRule [plain; plain] []);
      reflexivity.
Defined.

(** C5. For a hook whose trait at position [i] is variadic, the argument at
    position [i] of the generated call is the trampoline formal matched with
    it, passed on with the forwarding marker and not copied, and the call
    still has exactly [|H|] arguments. *)
Theorem variadic_formal_is_forwarded
  (k : TrampolineKind) (afterContext : Field -> Expr)
  (ip ip' : InstrumentPhase) (t : InstFuncRule) (traits : list ParamTrait)
  (i : nat) (tr : ParamTrait) :
  firstTraitPlain traits = true ->
  callHook k afterContext ip t traits = Ok ip' ->
  nth_error traits i = Some tr ->
  IsVariadic tr = true ->
  exists f args,
    formalFor k ip i = Some f
    /\ emittedCall (trampoline k ip') = Some (hookName k t, args)
    /\ nth_error args i = Some (Forward (Ident (Name f)))
    /\ List.length args = List.length traits.
Proof.
  intros Hwf Hcall Hnth Hvar.
  destruct (callHook_emittedCall _ _ _ _ _ _ Hcall) as [args [Hem [Hlen Hargs]]].
  destruct traits as [|t0 traits']; [destruct i; discriminate|].
  destruct i as [|j].
  { simpl in Hnth, Hwf. injection Hnth as ->. rewrite Hvar in Hwf. discriminate. }
  simpl in Hnth.
  assert (Hj : j < List.length traits')
    by (apply nth_error_Some; congruence).
  destruct k; simpl in Hcall, Hargs |- *.
  - pose proof (callBeforeHook_ok_arity _ _ _ _ Hcall) as Har. simpl in Har.
    destruct (nth_error (Params (beforeHookFunc ip)) j) as [f|] eqn:Hf.
    2:{ apply nth_error_None in Hf. lia. }
    exists f, args. rewrite Nat.sub_0_r. repeat split; auto.
    subst args. simpl.
    rewrite (matchFormals_nth _ _ _ _ _ Hnth Hf).
    unfold formalArg. now rewrite Hvar.
  - pose proof (callAfterHook_ok_arity _ _ _ _ _ Hcall) as Har. simpl in Har.
    destruct (Params (afterHookFunc ip)) as [|c formals] eqn:Hp;
      [simpl in Har; lia|].
    simpl in Har.
    destruct (nth_error formals j) as [f|] eqn:Hf.
    2:{ apply nth_error_None in Hf. lia. }
    exists f, args. repeat split; auto.
    subst args. simpl.
    rewrite (matchFormals_nth _ _ _ _ _ Hnth Hf).
    unfold formalArg. now rewrite Hvar.
Qed.

Lemma variadic_formal_is_forwarded_witness :
  exists ip',
    callHook KBefore contextFromFormal (beforePhase [fItems]) testRule
      [plain; variadic] = Ok ip'
    /\ exists f args,
         formalFor KBefore (beforePhase [fItems]) 1 = Some f
         /\ emittedCall (trampoline KBefore ip')
            = Some (hookName KBefore testRule, args)
         /\ nth_error args 1 = Some (Forward (Ident (Name f)))
         /\ List.length args = List.length [plain; variadic].
Proof.
  eexists. split.
  - reflexivity.
  - apply (variadic_formal_is_forwarded KBefore contextFromFormal
             (beforePhase [fItems]) _ testRule [plain; variadic] 1 variadic);
      reflexivity.
Defined.

(** ** The trampoline builder *)




Example test_target_trampolines :
  let ip' := buildTrampolineTypes (phaseFor testTarget) in
  List.length (Params (beforeHookFunc ip')) = 2
  /\ existsb isHookContext (Params (beforeHookFunc ip')) = false
  /\ option_map isHookContext (hd_error (Params (afterHookFunc ip'))) = Some true
  /\ List.length (Params (afterHookFunc ip')) = 5.
Proof. repeat split. Qed.

End InstrumentProofs.

(* ================================================================== *)
(** * Part VI: properties of the response writer *)
(* ================================================================== *)

Module ResponseWriterProofs.

Import Go.
Import ResponseWriter.
Local Open Scope Z_scope.

(** ** [int64] addition *)

Lemma wrap64_add_l (a n : Z) : wrap64 (wrap64 a + n) = wrap64 (a + n).
Proof.
  unfold wrap64.
  replace ((a + 2 ^ 63) mod 2 ^ 64 - 2 ^ 63 + n + 2 ^ 63)
    with ((a + 2 ^ 63) mod 2 ^ 64 + n) by ring.
  rewrite Zplus_mod_idemp_l.
  replace (a + 2 ^ 63 + n) with (a + n + 2 ^ 63) by ring.
  reflexivity.
Qed.

Lemma wrap64_small (x : Z) : minInt64 <= x <= maxInt64 -> wrap64 x = x.
Proof.
  unfold wrap64, minInt64, maxInt64. intros H.
  rewrite Z.mod_small; lia.
Qed.

(** ** The log of the wrapped writer *)

Lemma headersWritten_app (a b : list UnderlyingCall) :
  headersWritten (a ++ b) = (headersWritten a ++ headersWritten b)%list.
Proof.
  induction a as [|[code r|bs r] a IH]; simpl; auto. now rewrite IH.
Qed.

Lemma bytesReturned_app (a b : list UnderlyingCall) :
  bytesReturned (a ++ b) = bytesReturned a + bytesReturned b.
Proof.
  induction a as [|[code r|bs [[n e]|v]] a IH]; simpl; auto. lia.
Qed.

Section Invariant.

Variable W : Type.
Variable u : Underlying.

(** What holds of a wrapper between two calls. *)
Definition consistent (st : state W) : Prop :=
  let (rw, calls) := st in
  bytesWritten rw = wrap64 (bytesReturned calls)
  /\ (wroteHeader rw = false ->
      headersWritten calls = [] /\ statusCode rw = StatusOK)
  /\ (wroteHeader rw = true -> headersWritten calls = [statusCode rw]).

Lemma consistent_new (w : W) : consistent (newResponseWriter w, []).
Proof.
  simpl. repeat split; auto; discriminate.
Qed.

Lemma WriteHeader_consistent (code : Z) (st : state W) :
  consistent st -> consistent (snd (WriteHeader u code st)).
Proof.
  destruct st as [rw calls]. intros [Hb [Hf Ht]]. unfold WriteHeader.
  destruct (wroteHeader rw) eqn:Ew; simpl.
  - repeat split; auto; congruence.
  - destruct (Hf eq_refl) as [Hh _].
    rewrite headersWritten_app, bytesReturned_app, Hh. simpl.
    repeat split; try discriminate. rewrite Z.add_0_r. exact Hb.
Qed.

Lemma Write_consistent (b : list Byte.byte) (st : state W) :
  consistent st -> consistent (snd (Write u b st)).
Proof.
  intros Hc. unfold Write.
  assert (Hpre : exists r0 st1,
             (if negb (wroteHeader (fst st)) then WriteHeader u StatusOK st
              else (Normal tt, st)) = (r0, st1)
             /\ consistent st1 /\ wroteHeader (fst st1) = true).
  { destruct (wroteHeader (fst st)) eqn:Ew; simpl.
    - exists (Normal tt), st. auto.
    - pose proof (WriteHeader_consistent StatusOK st Hc) as Hc'.
      destruct st as [rw calls]. simpl in Ew. unfold WriteHeader in *.
      rewrite Ew in *. simpl in *. eexists _, _. split; [reflexivity|].
      split; [exact Hc' | reflexivity]. }
  destruct Hpre as [r0 [[rw calls] [-> [[Hb [Hf Ht]] Hw]]]]. simpl in Hw.
  destruct r0 as [[]|v]; simpl.
  2:{ tauto. }
  destruct (uWrite u calls b) as [[n e]|v] eqn:Eu; simpl.
  - rewrite headersWritten_app, bytesReturned_app. simpl.
    rewrite app_nil_r, Z.add_0_r. split; [|split].
    + rewrite Hb. apply wrap64_add_l.
    + intros Hfalse. congruence.
    + exact Ht.
  - rewrite headersWritten_app, bytesReturned_app. simpl.
    rewrite app_nil_r, Z.add_0_r. tauto.
Qed.

Lemma step_consistent (c : Call) (st : state W) :
  consistent st -> consistent (step u c st).
Proof.
  destruct c; simpl; [apply WriteHeader_consistent | apply Write_consistent].
Qed.

Lemma run_consistent (calls : list Call) :
  forall st, consistent st -> consistent (run u calls st).
Proof.
  induction calls as [|c calls IH]; intros st Hc; simpl; auto.
  apply IH. now apply step_consistent.
Qed.

(** Once the header is written, status and header log stay as they are. *)
Definition settled (s : Z) (st : state W) : Prop :=
  wroteHeader (fst st) = true /\ statusCode (fst st) = s
  /\ headersWritten (snd st) = [s].

Lemma step_settled (s : Z) (c : Call) (st : state W) :
  settled s st -> settled s (step u c st).
Proof.
  destruct st as [rw calls]. intros [Hw [Hs Hh]]. simpl in *.
  destruct c as [code|b]; simpl.
  - unfold WriteHeader. rewrite Hw. unfold settled. simpl. repeat split; auto.
  - unfold Write. simpl. rewrite Hw. simpl.
    destruct (uWrite u calls b) as [[n e]|v]; unfold settled; simpl;
      rewrite headersWritten_app; simpl; rewrite app_nil_r;
      repeat split; auto.
Qed.

Lemma run_settled (s : Z) (calls : list Call) :
  forall st, settled s st -> settled s (run u calls st).
Proof.
  induction calls as [|c calls IH]; intros st Hs; simpl; auto.
  apply IH. now apply step_settled.
Qed.

Lemma first_step_settled (w : W) (c : Call) (calls : list Call) (s : Z) :
  firstStatus (c :: calls) = Some s ->
  settled s (step u c (newResponseWriter w, [])).
Proof.
  destruct c as [code|b]; simpl; intros E; injection E as <-.
  - repeat split.
  - unfold Write. simpl.
    destruct (uWriteHeader u [] StatusOK) as [[]|v]; simpl.
    + destruct (uWrite u _ b) as [[n e]|v]; simpl; repeat split.
    + repeat split.
Qed.

End Invariant.

(** ** Claim *)

(** C8. For every sequence of [Write] and [WriteHeader] calls on a
    [responseWriter], the wrapped writer's [WriteHeader] is called at most
    once: with the status of the first [WriteHeader] call, or with 200 when
    a [Write] comes before any [WriteHeader]. Afterwards [StatusCode]
    returns that status (200 when no header was written), and
    [BytesWritten] is the [int64] sum of the byte counts that the wrapped
    writer's [Write] returned: the sum itself whenever that is an
    [int64]. *)
Theorem header_once_status_kept_bytes_summed
  (W : Type) (u : Underlying) (w : W) (calls : list Call) :
  let st := run u calls (newResponseWriter w, []) in
  (List.length (headersWritten (snd st)) <= 1)%nat
  /\ headersWritten (snd st)
     = match firstStatus calls with
       | Some s => [s]
       | None => []
       end
  /\ StatusCode (fst st)
     = match firstStatus calls with
       | Some s => s
       | None => StatusOK
       end
  /\ BytesWritten (fst st) = wrap64 (bytesReturned (snd st))
  /\ (minInt64 <= bytesReturned (snd st) <= maxInt64 ->
      BytesWritten (fst st) = bytesReturned (snd st)).
Proof.
  intros st.
  assert (Hc : consistent W st)
    by (apply run_consistent, consistent_new).
  assert (Hh : headersWritten (snd st)
               = match firstStatus calls with Some s => [s] | None => [] end
               /\ StatusCode (fst st)
                  = match firstStatus calls with
                    | Some s => s
                    | None => StatusOK
                    end).
  { subst st. destruct calls as [|c calls]; [split; reflexivity|].
    destruct (firstStatus (c :: calls)) as [s|] eqn:Ef.
    2:{ destruct c; discriminate. }
    pose proof (first_step_settled W u w c calls s Ef) as Hs.
    apply (run_settled W u s calls) in Hs.
    destruct Hs as [_ [Hs Hl]]. simpl. split; assumption. }
  destruct Hh as [Hh Hs].
  destruct st as [rw ucalls] eqn:Est. simpl in *.
  destruct Hc as [Hb _].
  repeat split; auto.
  - rewrite Hh. destruct (firstStatus calls); simpl; lia.
  - intros Hr. unfold BytesWritten. rewrite Hb. now apply wrap64_small.
Qed.

Lemma header_once_status_kept_bytes_summed_witness :
  headersWritten
    (snd (run acceptAll handlerCalls (newResponseWriter tt, [])))
  = [200]
  /\ StatusCode
       (fst (run acceptAll handlerCalls (newResponseWriter tt, [])))
     = 200
  /\ BytesWritten
       (fst (run acceptAll handlerCalls (newResponseWriter tt, [])))
     = 3.
Proof.
  pose proof (header_once_status_kept_bytes_summed unit acceptAll tt
                handlerCalls) as [_ [Hh [Hs [_ Hb]]]].
  split; [exact Hh | split; [exact Hs |]].
  apply Hb. vm_compute. split; discriminate.
Defined.

(** Byte counts beyond [int64] wrap around, as the addition in [Write]
    does. *)
Example byte_count_wraps :
  let st := run hugeWrites [CallWrite []; CallWrite []]
              (newResponseWriter tt, []) in
  bytesReturned (snd st) = 2 ^ 64 - 2 /\ BytesWritten (fst st) = -2.
Proof. vm_compute. split; reflexivity. Qed.

End ResponseWriterProofs.

(* ================================================================== *)
(** * Part VII: properties of the net/http hooks *)
(* ================================================================== *)

Module NetHTTPProofs.

Import Go.
Import ResponseWriter.
Import NetHTTP.
Local Open Scope Z_scope.

(** ** The hooks, run *)

Example before_client_do_rewrites_request :
  setParamCalls
    (trace (snd (BeforeClientDo
                   clientCall someClient emptyWorld)))
  = [(1, VRequest (Some startedRequest))].
Proof. reflexivity. Qed.

Example after_client_do_ends_started_request :
  trace (snd (AfterClientDo clientCallDone someClient emptyWorld))
  = [EvGetParam 1 (Normal (VRequest (Some startedRequest)));
     EvGetReturnValCount (Normal 2);
     EvGetReturnVal 0 (Normal (VResponse (Some 3%nat)));
     EvGetReturnValCount (Normal 2);
     EvGetReturnVal 1 (Normal VNil);
     EvNow 5;
     EvClientEnd (CtxWithValue CtxBackground (otherKey 0) (VOther 0))
       (mkClientInvocation plainRequest
          (mkClientResponse (Some 3%nat) None) None 1 5)
       (Normal tt)].
Proof. reflexivity. Qed.

(** ** Recovery *)


(** A panic that leaves a hook is one the logger raised inside the
    handler, after a panic of the body was recovered. *)
Lemma deferRecover_escape (env : Env) (msg : string) (body : M unit)
  (w : world) (p : PanicValue) :
  fst (deferRecover (logError env) msg body w) = Panicked p ->
  exists t w',
    body w = (Panicked (Some t), w')
    /\ logger_Error env (trace w') msg (Some t) = Panicked p.
Proof.
  unfold deferRecover.
  destruct (body w) as [[[]|[t|]] w'] eqn:E; simpl; try discriminate.
  intros H. exists t, w'. split; auto.
Qed.



(** A panic of the instrumenter in the middle of a body is recovered and
    logged. *)
Example start_panic_is_logged :
  trace (snd (BeforeClientDo clientCallStartFails someClient emptyWorld))
  = [EvGetParam 1 (Normal (VRequest (Some plainRequest)));
     EvNow 1;
     EvClientStart CtxBackground plainRequest (Panicked nilDereference);
     EvLogError "instrumentation panic in BeforeClientDo" nilDereference
       (Normal tt)].
Proof. reflexivity. Qed.

(** A nil state pointer under the client key: the dereference panics, the
    handler recovers, and [End] is not called. *)
Example nil_state_is_recovered :
  trace (snd (AfterClientDo
                (slotsEnv [someClient; VRequest (Some nilStateRequest)] []
                   withSpan (Normal tt))
                someClient emptyWorld))
  = [EvGetParam 1 (Normal (VRequest (Some nilStateRequest)));
     EvGetReturnValCount (Normal 0);
     EvGetReturnValCount (Normal 0);
     EvNow 3;
     EvLogError "instrumentation panic in AfterClientDo" nilDereference
       (Normal tt)].
Proof. reflexivity. Qed.

(** The handler's own call is outside the recovery: a logger that panics
    is the one way a panic leaves a hook. *)
Example logger_panic_leaves_hook :
  fst (BeforeClientDo
         (slotsEnv [] [] startFails (Panicked nilDereference))
         someClient emptyWorld)
  = Panicked nilDereference.
Proof. reflexivity. Qed.

(** ** Library facts *)

Lemma Request_Context_not_nil (r : Request) :
  isNilContext (Request_Context r) = false.
Proof.
  unfold Request_Context. destruct (req_ctx r); reflexivity.
Qed.

Lemma WithValue_holds (parent : context) (k : ctxkey) (v : value) :
  context_Value (CtxWithValue parent k v) k = Normal v.
Proof.
  simpl. destruct k; simpl; try reflexivity. now rewrite Nat.eqb_refl.
Qed.

(** ** Case analysis of a hook *)

(** Split on the outcome of the next collaborator call, or on the next
    test of the body. *)
Ltac next_case :=
  match goal with
  | |- context [match ?x with _ => _ end] =>
      lazymatch x with
      | context [match _ with _ => _ end] => fail
      | _ => destruct x eqn:?
      end
  end.

Ltac run_hook :=
  unfold BeforeClientDo, AfterClientDo, BeforeServeHTTP, AfterServeHTTP,
    BeforeClientDo_body, AfterClientDo_body, BeforeServeHTTP_body,
    AfterServeHTTP_body, endServerInstrumentation, deferRecover, bind,
    GetParam, SetParam, GetReturnValCount, GetReturnVal, Now,
    clientInstrumenter_Start, clientInstrumenter_End,
    serverInstrumenter_Start, serverInstrumenter_End, logError, call, lift,
    alloc, load, context_WithValue, Request_WithContext, ret, panic;
  simpl;
  repeat (next_case; simpl in *; try discriminate).

(** The event a membership in an explicit trace speaks of. *)
Ltac split_in H :=
  simpl in H;
  let rec go :=
    lazymatch type of H with
    | _ \/ _ => destruct H as [H|H]; [try discriminate H | go]
    | False => contradiction H
    | _ => idtac
    end in
  go.

(** Name the events a run has added to the trace. *)
Ltac name_events :=
  eexists; split; [rewrite <- ?app_assoc; simpl; reflexivity | simpl].

(** C7, as the spec has it: whenever parameter 1 is a non-nil request the
    hook writes it back. It does not when the instrumenter panics on the
    way: the panic is recovered and the request stays as it was. *)
Lemma BeforeClientDo_start_panic_skips_write_back :
  hc_GetParam clientCallStartFails (trace emptyWorld) 1
  = Normal (VRequest (Some plainRequest))
  /\ setParamCalls
       (trace (snd (BeforeClientDo clientCallStartFails someClient emptyWorld)))
     = [].
Proof. split; reflexivity. Qed.

(** C7, amended. [BeforeClientDo] writes back at most parameter 1 of the
    HookContext. It never calls [SetParam] on another index, and calls it at
    most once. When [GetParam(1)] is not a non-nil request it returns
    without any [SetParam]. When [GetParam(1)] is a non-nil request [req],
    the instrumenter is started on it; and once [Start] has returned a
    context [c] (not nil), the hook calls [SetParam(1, r')] where [r'] is
    [req] with its context replaced by one that holds, under the client key,
    the instrumentation state made of the start time, [req] and [c]. *)
Theorem BeforeClientDo_writes_back_request_only
  (env : Env) (client : value) (w : world) :
  exists evs,
    trace (snd (BeforeClientDo env client w)) = (trace w ++ evs)%list
    /\ (forall i v, In (i, v) (setParamCalls evs) -> i = 1)
    /\ (List.length (setParamCalls evs) <= 1)%nat
    /\ ((forall req,
           hc_GetParam env (trace w) 1 <> Normal (VRequest (Some req))) ->
        setParamCalls evs = [])
    /\ (forall req,
          hc_GetParam env (trace w) 1 = Normal (VRequest (Some req)) ->
          exists r, In (EvClientStart (Request_Context req) req r) evs)
    /\ (forall parent req c,
          In (EvClientStart parent req (Normal c)) evs ->
          isNilContext c = false ->
          hc_GetParam env (trace w) 1 = Normal (VRequest (Some req))
          /\ exists t r',
               r' = mkRequest (req_id req)
                      (CtxWithValue c clientContextKey
                         (VClientInstr (Some (mkClientInstr t req c))))
               /\ setParamCalls evs = [(1, VRequest (Some r'))]
               /\ context_Value (Request_Context r') clientContextKey
                  = Normal (VClientInstr (Some (mkClientInstr t req c)))).
Proof.
  run_hook.
  all: repeat match goal with
         | H : isNilContext (Request_Context ?r) = true |- _ =>
             rewrite Request_Context_not_nil in H; discriminate H
         end.
  all: name_events.
  all: repeat match goal with |- _ /\ _ => split end.
  all: try lia.
  all: try solve [intros ix vx Hin; simpl in Hin; intuition congruence].
  all: try solve [intros Hno; try reflexivity; exfalso; eapply Hno;
                  reflexivity].
  all: try solve [intros rq Hreq; discriminate Hreq].
  all: try solve [intros rq Hreq; injection Hreq as <-; eexists; simpl; eauto].
  all: try solve [intros pa rq cx Hin Hnil; split_in Hin].
  all: try solve [intros pa rq cx Hin Hnil; split_in Hin;
                  injection Hin as <- <- <-; simpl in Hnil;
                  discriminate Hnil].
  all: intros pa rq cx Hin Hnil; split_in Hin; injection Hin as <- <- <-;
    (split; [reflexivity | do 2 eexists; repeat split]).
Qed.

Lemma BeforeClientDo_writes_back_request_only_witness :
  hc_GetParam clientCall (trace emptyWorld) 1
  = Normal (VRequest (Some plainRequest))
  /\ exists t r',
       r' = mkRequest (req_id plainRequest)
              (CtxWithValue (CtxWithValue CtxBackground (otherKey 0) (VOther 0))
                 clientContextKey
                 (VClientInstr
                    (Some (mkClientInstr t plainRequest
                             (CtxWithValue CtxBackground (otherKey 0)
                                (VOther 0))))))
       /\ setParamCalls
            (trace (snd (BeforeClientDo clientCall someClient emptyWorld)))
          = [(1, VRequest (Some r'))]
       /\ context_Value (Request_Context r') clientContextKey
          = Normal (VClientInstr
                      (Some (mkClientInstr t plainRequest
                               (CtxWithValue CtxBackground (otherKey 0)
                                  (VOther 0))))).
Proof.
  destruct (BeforeClientDo_writes_back_request_only clientCall someClient
              emptyWorld) as [evs [Htr [_ [_ [_ [_ Hpos]]]]]].
  change (trace emptyWorld ++ evs)%list with evs in Htr.
  rewrite Htr. apply (Hpos CtxBackground).
  - rewrite <- Htr. simpl. tauto.
  - reflexivity.
Defined.

(** C9. [AfterClientDo] does nothing beyond reading the HookContext, and in
    particular never calls [clientInstrumenter.End], unless [GetParam(1)] is
    a non-nil request whose context carries the instrumentation state that
    [BeforeClientDo] stores under the client key; [End] then gets that
    state's context, request and start time. It reads [GetReturnVal(0)]
    only after [GetReturnValCount] returned at least 1 and
    [GetReturnVal(1)] only after it returned at least 2, so no index at or
    beyond the count is read. *)
Theorem AfterClientDo_ends_only_started_requests
  (env : Env) (client : value) (w : world) :
  exists evs,
    trace (snd (AfterClientDo env client w)) = (trace w ++ evs)%list
    /\ setParamCalls evs = []
    /\ (forall c inv r,
          In (EvClientEnd c inv r) evs ->
          exists st rq,
            carriesClientState (hc_GetParam env (trace w) 1)
              (mkClientInstr st rq c)
            /\ cRequest inv = rq /\ cStartTimeStamp inv = st)
    /\ ((forall ic,
           ~ carriesClientState (hc_GetParam env (trace w) 1) ic) ->
        forallb quiet evs = true)
    /\ readsWithinCount None evs
    /\ (forall i r, In (EvGetReturnVal i r) evs -> i = 0 \/ i = 1).
Proof.
  run_hook.
  all: name_events.
  all: repeat split.
  all: repeat match goal with
         | H : (_ <=? _) = true |- _ => apply Z.leb_le in H
         end.
  all: try (eexists; split; [reflexivity | lia]).
  all: try (intros i r' Hin; split_in Hin; injection Hin as <- _; auto).
  all: try (intros c' inv r' Hin; split_in Hin;
            injection Hin as <- <- _; do 2 eexists;
            (split; [eexists; split; [reflexivity | eassumption]
                    | split; reflexivity])).
  all: intros Hno; exfalso; eapply Hno; eexists;
    (split; [reflexivity | eassumption]).
Qed.

Lemma AfterClientDo_ends_only_started_requests_witness :
  exists st rq,
    carriesClientState (hc_GetParam clientCallDone (trace emptyWorld) 1)
      (mkClientInstr st rq (CtxWithValue CtxBackground (otherKey 0) (VOther 0)))
    /\ cRequest (mkClientInvocation plainRequest
                   (mkClientResponse (Some 3%nat) None) None 1 5) = rq
    /\ cStartTimeStamp (mkClientInvocation plainRequest
                          (mkClientResponse (Some 3%nat) None) None 1 5) = st.
Proof.
  destruct (AfterClientDo_ends_only_started_requests clientCallDone someClient
              emptyWorld) as [evs [Htr [_ [Hend _]]]].
  change (trace emptyWorld ++ evs)%list with evs in Htr.
  apply (Hend _ _ (Normal tt)). rewrite <- Htr. simpl. tauto.
Defined.

End NetHTTPProofs.

(* ================================================================== *)
(** * Further properties: the server hooks and the two hooks of a call *)
(* ================================================================== *)

Module NetHTTPFlowProofs.

Import Go.
Import ResponseWriter.
Import NetHTTP.
Import NetHTTPFlow.
Import NetHTTPProofs.
Local Open Scope Z_scope.

Example server_call_before :
  setParamCalls (trace (snd (BeforeServeHTTP serverCall someClient emptyWorld)))
  = [(2, VRequest (Some (servedRequest plainRequest
                           (CtxWithValue CtxBackground (otherKey 0) (VOther 0))
                           2 0)));
     (1, VWrapped (Some 0%nat))].
Proof. reflexivity. Qed.

(** ** Tactics for the leaves of a case analysis *)

Lemma skipn_length_app (A : Type) (a b : list A) :
  skipn (List.length a) (a ++ b) = b.
Proof.
  induction a as [|x a IH]; simpl; auto.
Qed.

Lemma added_app (w w' : world) (evs : list event) :
  trace w' = (trace w ++ evs)%list -> added w w' = evs.
Proof.
  intros E. unfold added. rewrite E. apply skipn_length_app.
Qed.

Lemma added_same (w : world) (h : list (responseWriter value)) :
  added w (mkWorld (trace w) h) = [].
Proof.
  unfold added. simpl. apply skipn_all.
Qed.

(** Compute the calls a run has added, in a leaf of the analysis. *)
Ltac simpl_added :=
  repeat match goal with
    | |- context [added ?w ?w'] =>
        first
          [ rewrite (added_same w)
          | let E := fresh "E" in
            let evs := fresh "evs" in
            evar (evs : list event);
            assert (E : trace w' = (trace w ++ evs)%list)
              by (subst evs; simpl; rewrite <- ?app_assoc; simpl;
                  reflexivity);
            rewrite (added_app w w' evs E); subst evs; clear E ]
    end;
  simpl.

Ltac normalize_tests :=
  repeat match goal with
    | H : negb _ = true |- _ => apply Bool.negb_true_iff in H
    | H : negb _ = false |- _ => apply Bool.negb_false_iff in H
    | H : (_ <=? _) = true |- _ => apply Z.leb_le in H
    | H : (_ <=? _) = false |- _ => apply Z.leb_gt in H
    | H : isNilContext (Request_Context ?r) = true |- _ =>
        rewrite Request_Context_not_nil in H; discriminate H
    end.

Ltac conj_split := repeat match goal with |- _ /\ _ => split end.

(** ** [BeforeServeHTTP] *)

(** X1. BeforeServeHTTP replaces the request (parameter 2) and then the
    writer (parameter 1), each at most once and in that order, and nothing
    else. The stored request is the original one with a context that
    carries the start time, the original request and the wrapper; the
    stored writer is that wrapper, fresh, around the writer of parameter 1.
    Unless parameter 1 is a ResponseWriter and parameter 2 a non-nil
    request, nothing is stored and no wrapper is made; wrappers that exist
    are left alone. *)
Theorem BeforeServeHTTP_wraps_request_then_writer
  (env : Env) (sh : value) (w : world) :
  exists evs,
    trace (snd (BeforeServeHTTP env sh w)) = (trace w ++ evs)%list
    /\ serverWriteBacks env w (snd (BeforeServeHTTP env sh w))
         (setParamCalls evs)
    /\ (heap (snd (BeforeServeHTTP env sh w)) = heap w
        \/ exists wv,
             hc_GetParam env (trace w) 1 = Normal wv
             /\ heap (snd (BeforeServeHTTP env sh w))
                = (heap w ++ [newResponseWriter wv])%list)
    /\ ((exists wv r,
           hc_GetParam env (trace w) 1 = Normal wv
           /\ isResponseWriter wv = true
           /\ hc_GetParam env (trace w ++ [EvGetParam 1 (Normal wv)]) 2
              = Normal (VRequest (Some r)))
        \/ (setParamCalls evs = []
            /\ heap (snd (BeforeServeHTTP env sh w)) = heap w)).
Proof.
  run_hook.
  all: normalize_tests.
  all: name_events.
  all: conj_split.
  all: try exact I.
  all: try solve [left; reflexivity].
  all: try solve [right; split; reflexivity].
  all: try solve [right; eexists; split; reflexivity].
  all: try solve [left; do 2 eexists; conj_split;
                  [reflexivity | eassumption | eassumption]].
  all: try reflexivity.
  all: unfold wrapped, servedRequest; do 4 eexists; conj_split;
    try eassumption; try reflexivity.
  all: simpl_added; tauto.
Qed.

(** ** [AfterServeHTTP] *)

(** X2. AfterServeHTTP ends the server instrumentation at most once, and
    only for a non-nil request in parameter 2 whose context carries a
    server state with a wrapper: [End] then gets the request's context, the
    request and start time of the state, and the status code and byte count
    the wrapper has captured by then. A nil state pointer makes the hook
    return at once, without a log line; a state without wrapper makes it
    panic, which is recovered and logged. The hook never calls [SetParam]
    and leaves every wrapper as it is. *)
Theorem AfterServeHTTP_reports_what_the_wrapper_captured
  (env : Env) (sh : value) (w : world) :
  exists evs,
    trace (snd (AfterServeHTTP env sh w)) = (trace w ++ evs)%list
    /\ heap (snd (AfterServeHTTP env sh w)) = heap w
    /\ setParamCalls evs = []
    /\ (List.length (serverEnds evs) <= 1)%nat
    /\ (forall c inv,
          In (c, inv) (serverEnds evs) ->
          exists rq t r0 addr rw tn,
            carriesServerState (hc_GetParam env (trace w) 2)
              (mkServerInstr t r0 (Some addr))
            /\ hc_GetParam env (trace w) 2 = Normal (VRequest (Some rq))
            /\ nth_error (heap w) addr = Some rw
            /\ c = Request_Context rq
            /\ inv = mkServerInvocation r0
                       (mkServerResponse (StatusCode rw) (BytesWritten rw))
                       t tn)
    /\ (forall rq t r0 addr rw,
          hc_GetParam env (trace w) 2 = Normal (VRequest (Some rq)) ->
          context_Value (Request_Context rq) serverContextKey
          = Normal (VServerInstr (Some (mkServerInstr t r0 (Some addr)))) ->
          nth_error (heap w) addr = Some rw ->
          exists tn,
            serverEnds evs
            = [(Request_Context rq,
                mkServerInvocation r0
                  (mkServerResponse (StatusCode rw) (BytesWritten rw)) t tn)])
    /\ (forall rq,
          hc_GetParam env (trace w) 2 = Normal (VRequest (Some rq)) ->
          context_Value (Request_Context rq) serverContextKey
          = Normal (VServerInstr None) ->
          evs = [EvGetParam 2 (Normal (VRequest (Some rq)))])
    /\ (forall rq t r0,
          hc_GetParam env (trace w) 2 = Normal (VRequest (Some rq)) ->
          context_Value (Request_Context rq) serverContextKey
          = Normal (VServerInstr (Some (mkServerInstr t r0 None))) ->
          serverEnds evs = []
          /\ logLines evs
             = [("instrumentation panic in AfterServeHTTP"%string,
                 nilDereference)]).
Proof.
  run_hook.
  all: normalize_tests.
  all: name_events.
  all: conj_split.
  all: try reflexivity.
  all: try lia.
  all: try solve [intros; discriminate].
  all: try solve [intros; congruence].
  all: try solve [intros; exfalso; congruence].
  all: try solve [intros; split; reflexivity].
  all: try solve [intros cx inv [E|[]]; injection E as <- <-;
                  do 6 eexists; conj_split;
                  [eexists; split; [reflexivity | eassumption]
                  | reflexivity | eassumption | reflexivity | reflexivity]].
  all: intros rq t r1 addr rw E1 E2 E3; injection E1 as <-;
    match goal with
    | H : context_Value ?c ?k = _, H' : context_Value ?c ?k = _ |- _ =>
        rewrite H in H'; injection H' as <- <- <-
    end;
    match goal with
    | H : nth_error ?l ?n = _, H' : nth_error ?l ?n = _ |- _ =>
        rewrite H in H'; injection H' as <-
    end;
    eexists; reflexivity.
Qed.

(** ** From one hook to the other *)

Lemma nth_error_replaceNth (A : Type) (l : list A) :
  forall n x y, nth_error l n = Some y ->
                nth_error (replaceNth n x l) n = Some x.
Proof.
  induction l as [|z l IH]; intros [|n] x y H; simpl in *;
    try discriminate; eauto.
Qed.

(** What a wrapper has captured after a handler's calls. *)
Lemma run_captures (W : Type) (u : Underlying) (wv : W) (calls : list Call) :
  StatusCode (fst (run u calls (newResponseWriter wv, [])))
  = match firstStatus calls with
    | Some s => s
    | None => StatusOK
    end
  /\ BytesWritten (fst (run u calls (newResponseWriter wv, [])))
     = wrap64 (bytesReturned (snd (run u calls (newResponseWriter wv, [])))).
Proof.
  split.
  - destruct calls as [|c calls]; [reflexivity|].
    destruct (firstStatus (c :: calls)) as [s|] eqn:Ef.
    2:{ destruct c; discriminate. }
    pose proof (ResponseWriterProofs.first_step_settled W u wv c calls s Ef)
      as Hs.
    apply (ResponseWriterProofs.run_settled W u s calls) in Hs.
    destruct Hs as [_ [Hs _]]. exact Hs.
  - pose proof (ResponseWriterProofs.run_consistent W u calls
                  (newResponseWriter wv, [])
                  (ResponseWriterProofs.consistent_new W wv)) as Hc.
    destruct (run u calls (newResponseWriter wv, [])) as [rw ucalls].
    destruct Hc as [Hb _]. exact Hb.
Qed.

Lemma BeforeServeHTTP_stored (env : Env) (sh : value) (w : world)
  (r' : Request) (addr : nat) :
  setParamCalls (added w (snd (BeforeServeHTTP env sh w)))
  = [(2, VRequest (Some r')); (1, VWrapped (Some addr))] ->
  wrapped env w (snd (BeforeServeHTTP env sh w)) r'
  /\ addr = List.length (heap w).
Proof.
  run_hook.
  all: normalize_tests.
  all: simpl_added.
  all: try discriminate.
  all: intros E; injection E as <- <-.
  all: split; [|reflexivity].
  all: unfold wrapped, servedRequest; do 4 eexists; conj_split;
    try eassumption; try reflexivity.
  all: simpl_added; tauto.
Qed.

Lemma AfterServeHTTP_ends (env : Env) (sh : value) (w : world)
  (rq r0 : Request) (t : Z) (addr : nat) (rw : responseWriter value) :
  hc_GetParam env (trace w) 2 = Normal (VRequest (Some rq)) ->
  context_Value (Request_Context rq) serverContextKey
  = Normal (VServerInstr (Some (mkServerInstr t r0 (Some addr)))) ->
  nth_error (heap w) addr = Some rw ->
  exists tn,
    serverEnds (added w (snd (AfterServeHTTP env sh w)))
    = [(Request_Context rq,
        mkServerInvocation r0
          (mkServerResponse (StatusCode rw) (BytesWritten rw)) t tn)]
    /\ In (EvNow tn) (added w (snd (AfterServeHTTP env sh w))).
Proof.
  intros Hp Hc Hn. unfold AfterServeHTTP, AfterServeHTTP_body, deferRecover,
    bind, GetParam, call, lift, ret. simpl. rewrite Hp. simpl.
  rewrite Request_Context_not_nil, Hc. simpl.
  unfold bind, load, Now, serverInstrumenter_End, logError, call. simpl.
  rewrite Hn. simpl.
  repeat (next_case; simpl in * ).
  all: simpl_added; eexists; split; [reflexivity | tauto].
Qed.

(** X3. The server hooks, end to end. When BeforeServeHTTP has replaced
    request and writer, the handler has made its calls on the wrapper, and
    the HookContext hands the stored request to AfterServeHTTP, the
    instrumentation is ended exactly once: for the original request, with
    the start time and on the context of the stored request, and with the
    status code of the handler's first call (200 for a [Write], or for no
    call at all) and the [int64] sum of the bytes its writes returned. *)
Theorem server_hooks_report_the_handlers_response
  (env env' : Env) (sh : value) (w : world) (u : Underlying)
  (calls : list Call) (r' : Request) (addr : nat) :
  setParamCalls (added w (snd (BeforeServeHTTP env sh w)))
  = [(2, VRequest (Some r')); (1, VWrapped (Some addr))] ->
  hc_GetParam env'
    (trace (serveWith u calls addr (snd (BeforeServeHTTP env sh w)))) 2
  = Normal (VRequest (Some r')) ->
  exists wv r t c tn,
    hc_GetParam env (trace w) 1 = Normal wv
    /\ r' = servedRequest r c t addr
    /\ In (EvNow t) (added w (snd (BeforeServeHTTP env sh w)))
    /\ In (EvServerStart (Request_Context r) r (Normal c))
         (added w (snd (BeforeServeHTTP env sh w)))
    /\ serverEnds
         (added (serveWith u calls addr (snd (BeforeServeHTTP env sh w)))
            (snd (AfterServeHTTP env' sh
                    (serveWith u calls addr (snd (BeforeServeHTTP env sh w))))))
       = [(Request_Context r',
           mkServerInvocation r
             (mkServerResponse
                (match firstStatus calls with
                 | Some s => s
                 | None => StatusOK
                 end)
                (wrap64
                   (bytesReturned
                      (snd (run u calls (newResponseWriter wv, []))))))
             t tn)].
Proof.
  intros Hset Hget.
  destruct (BeforeServeHTTP_stored env sh w r' addr Hset)
    as [[wv [r [t [c [H1 [Hrw [H2 [Hr' [Hheap [Hnow Hstart]]]]]]]]]] Haddr].
  set (w1 := snd (BeforeServeHTTP env sh w)) in *.
  assert (Hcell : nth_error (heap w1) addr = Some (newResponseWriter wv)).
  { rewrite Hheap, Haddr, nth_error_app2, Nat.sub_diag by lia. reflexivity. }
  set (w2 := serveWith u calls addr w1) in *.
  assert (Hcell2 : nth_error (heap w2) addr
                   = Some (fst (run u calls (newResponseWriter wv, [])))).
  { subst w2. unfold serveWith. rewrite Hcell. simpl.
    eapply nth_error_replaceNth. exact Hcell. }
  assert (Hctx : context_Value (Request_Context r') serverContextKey
                 = Normal (VServerInstr
                             (Some (mkServerInstr t r (Some addr))))).
  { rewrite Hr', Haddr. reflexivity. }
  destruct (AfterServeHTTP_ends env' sh w2 r' r t addr _ Hget Hctx Hcell2)
    as [tn [Hends _]].
  destruct (run_captures value u wv calls) as [Hst Hby].
  exists wv, r, t, c, tn. conj_split; auto.
  - rewrite Hr', Haddr. reflexivity.
  - rewrite Hends, Hst, Hby. reflexivity.
Qed.

Lemma server_hooks_report_the_handlers_response_witness :
  exists wv r t c tn,
    hc_GetParam serverCall (trace emptyWorld) 1 = Normal wv
    /\ servedRequest plainRequest
         (CtxWithValue CtxBackground (otherKey 0) (VOther 0)) 2 0
       = servedRequest r c t 0
    /\ In (EvNow t) (added emptyWorld
                       (snd (BeforeServeHTTP serverCall someClient emptyWorld)))
    /\ In (EvServerStart (Request_Context r) r (Normal c))
         (added emptyWorld
            (snd (BeforeServeHTTP serverCall someClient emptyWorld)))
    /\ serverEnds
         (added (serveWith acceptAll handlerCalls 0
                   (snd (BeforeServeHTTP serverCall someClient emptyWorld)))
            (snd (AfterServeHTTP serverCall someClient
                    (serveWith acceptAll handlerCalls 0
                       (snd (BeforeServeHTTP serverCall someClient
                               emptyWorld))))))
       = [(Request_Context
             (servedRequest plainRequest
                (CtxWithValue CtxBackground (otherKey 0) (VOther 0)) 2 0),
           mkServerInvocation r
             (mkServerResponse
                (match firstStatus handlerCalls with
                 | Some s => s
                 | None => StatusOK
                 end)
                (wrap64
                   (bytesReturned
                      (snd (run acceptAll handlerCalls
                              (newResponseWriter wv, []))))))
             t tn)].
Proof.
  apply (server_hooks_report_the_handlers_response serverCall serverCall
           someClient emptyWorld acceptAll handlerCalls
           (servedRequest plainRequest
              (CtxWithValue CtxBackground (otherKey 0) (VOther 0)) 2 0)
           0%nat);
    reflexivity.
Defined.

Example server_call_end_to_end :
  serverEnds
    (trace (snd (AfterServeHTTP serverCall someClient
                   (serveWith acceptAll handlerCalls 0
                      (snd (BeforeServeHTTP serverCall someClient
                              emptyWorld))))))
  = [(Request_Context
        (servedRequest plainRequest
           (CtxWithValue CtxBackground (otherKey 0) (VOther 0)) 2 0),
      mkServerInvocation plainRequest (mkServerResponse 200 3) 2 7)].
Proof. reflexivity. Qed.

(** ** The client hooks, end to end *)

Lemma BeforeClientDo_stored (env : Env) (client : value) (w : world)
  (v : value) :
  setParamCalls (added w (snd (BeforeClientDo env client w))) = [(1, v)] ->
  exists r t c,
    hc_GetParam env (trace w) 1 = Normal (VRequest (Some r))
    /\ v = VRequest (Some (sentRequest r c t))
    /\ In (EvNow t) (added w (snd (BeforeClientDo env client w)))
    /\ In (EvClientStart (Request_Context r) r (Normal c))
         (added w (snd (BeforeClientDo env client w))).
Proof.
  run_hook.
  all: normalize_tests.
  all: simpl_added.
  all: try discriminate.
  all: intros E; injection E as <-.
  all: unfold sentRequest; do 3 eexists; conj_split; try reflexivity.
  all: simpl_added; tauto.
Qed.

(** What [End] is handed by AfterClientDo. *)
Lemma AfterClientDo_cases (env : Env) (client : value) (w : world) :
  exists evs,
    trace (snd (AfterClientDo env client w)) = (trace w ++ evs)%list
    /\ (List.length (clientEnds evs) <= 1)%nat
    /\ (forall c inv,
          In (c, inv) (clientEnds evs) ->
          Err (cResponse inv) = cErr inv
          /\ Response (cResponse inv)
             = match returnValRead 0 evs with
               | Some v => asResponse v
               | None => None
               end
          /\ cErr inv
             = match returnValRead 1 evs with
               | Some v => asError v
               | None => None
               end
          /\ In (EvNow (cEndTimeStamp inv)) evs)
    /\ (forall rq t r0 c,
          hc_GetParam env (trace w) 1 = Normal (VRequest (Some rq)) ->
          context_Value (Request_Context rq) clientContextKey
          = Normal (VClientInstr (Some (mkClientInstr t r0 c))) ->
          returnValsReadable env ->
          exists inv,
            clientEnds evs = [(c, inv)]
            /\ cRequest inv = r0 /\ cStartTimeStamp inv = t).
Proof.
  run_hook.
  all: normalize_tests.
  all: name_events.
  all: conj_split.
  all: try lia.
  all: try solve [intros cx inv []].
  all: try solve [intros cx inv [E|[]]; injection E as <- <-; simpl;
                  rewrite ?Z.eqb_refl; simpl; tauto].
  all: try solve [intros; discriminate].
  all: try solve [intros; exfalso; congruence].
  all: try solve [intros rq t r0 cx E1 E2 [Hc Hv];
                  match goal with
                  | H : hc_GetReturnValCount _ ?tr = Panicked _ |- _ =>
                      destruct (Hc tr) as [? ?]; congruence
                  | H : hc_GetReturnVal _ (?tr ++ [_ (Normal ?n)]) ?i
                        = Panicked _,
                    H' : hc_GetReturnValCount _ ?tr = Normal ?n |- _ =>
                      destruct (Hv tr n i H') as [? ?]; [lia | congruence]
                  end].
  all: intros rq t r0 cx E1 E2 _; injection E1 as <-;
    match goal with
    | H : context_Value ?c ?k = _, H' : context_Value ?c ?k = _ |- _ =>
        rewrite H in H'; injection H' as <- <- <-
    end;
    eexists; conj_split; reflexivity.
Qed.

(** X4. The client hooks, end to end. When BeforeClientDo has replaced the
    request, the HookContext hands the stored request to AfterClientDo and
    its return-value accessors do not panic, the instrumentation is ended
    exactly once: on the context that [Start] returned for this request,
    for the original request and with the start time read before [Start]. *)
Theorem client_hooks_end_what_they_started
  (env env' : Env) (client : value) (w w' : world) (v : value) :
  setParamCalls (added w (snd (BeforeClientDo env client w))) = [(1, v)] ->
  hc_GetParam env' (trace w') 1 = Normal v ->
  returnValsReadable env' ->
  exists r t c inv,
    hc_GetParam env (trace w) 1 = Normal (VRequest (Some r))
    /\ In (EvNow t) (added w (snd (BeforeClientDo env client w)))
    /\ In (EvClientStart (Request_Context r) r (Normal c))
         (added w (snd (BeforeClientDo env client w)))
    /\ clientEnds (added w' (snd (AfterClientDo env' client w')))
       = [(c, inv)]
    /\ cRequest inv = r
    /\ cStartTimeStamp inv = t.
Proof.
  intros Hset Hget Hread.
  destruct (BeforeClientDo_stored env client w v Hset)
    as [r [t [c [Hp [Hv [Hnow Hstart]]]]]].
  destruct (AfterClientDo_cases env' client w')
    as [evs [Htr [_ [_ Hpos]]]].
  rewrite (added_app w' _ evs Htr).
  subst v.
  destruct (Hpos (sentRequest r c t) t r c Hget) as [inv [He [Hr Ht]]];
    [reflexivity | exact Hread |].
  exists r, t, c, inv. conj_split; auto.
Qed.

Lemma client_hooks_end_what_they_started_witness :
  exists r t c inv,
    hc_GetParam clientCall (trace emptyWorld) 1 = Normal (VRequest (Some r))
    /\ In (EvNow t)
         (added emptyWorld (snd (BeforeClientDo clientCall someClient emptyWorld)))
    /\ In (EvClientStart (Request_Context r) r (Normal c))
         (added emptyWorld (snd (BeforeClientDo clientCall someClient emptyWorld)))
    /\ clientEnds
         (added emptyWorld (snd (AfterClientDo clientCallDone someClient emptyWorld)))
       = [(c, inv)]
    /\ cRequest inv = r
    /\ cStartTimeStamp inv = t.
Proof.
  apply (client_hooks_end_what_they_started clientCall clientCallDone
           someClient emptyWorld emptyWorld (VRequest (Some startedRequest))).
  - reflexivity.
  - reflexivity.
  - split; [intros tr; eexists; reflexivity |].
    intros tr n i E Hi. injection E as <-. simpl in Hi |- *.
    assert (Hcases : i = 0 \/ i = 1) by lia.
    destruct Hcases as [-> | ->]; eexists; reflexivity.
Defined.

(** X5. AfterClientDo ends the client instrumentation at most once, and
    what it hands to [End] is what the call returned: the response is
    return value 0 when that has been read and is a [*http.Response], nil
    otherwise; the error is return value 1 when that has been read and is
    an [error], nil otherwise, and it is the same in the invocation and in
    the response wrapper; the end time is read from the clock by the hook. *)
Theorem AfterClientDo_hands_over_response_and_error
  (env : Env) (client : value) (w : world) :
  exists evs,
    trace (snd (AfterClientDo env client w)) = (trace w ++ evs)%list
    /\ (List.length (clientEnds evs) <= 1)%nat
    /\ (forall c inv,
          In (c, inv) (clientEnds evs) ->
          Err (cResponse inv) = cErr inv
          /\ Response (cResponse inv)
             = match returnValRead 0 evs with
               | Some v => asResponse v
               | None => None
               end
          /\ cErr inv
             = match returnValRead 1 evs with
               | Some v => asError v
               | None => None
               end
          /\ In (EvNow (cEndTimeStamp inv)) evs).
Proof.
  destruct (AfterClientDo_cases env client w) as [evs [Htr [Hlen [Hinv _]]]].
  exists evs. conj_split; assumption.
Qed.

(** ** Log lines *)





End NetHTTPFlowProofs.

(* ================================================================== *)
(** * Properties of the response writer's optional interfaces *)
(* ================================================================== *)

Module ResponseWriterFullProofs.

Import Go.
Import ResponseWriter.
Import ResponseWriterFull.
Import ResponseWriterProofs.
Local Open Scope Z_scope.

Example flushing_handler_on_a_streaming_writer :
  let st := runMethods streamingWriter flushingHandler
              (newResponseWriter tt, []) in
  snd st
  = [WFlush (Normal tt);
     WBasic (UWriteHeader 404 (Normal tt));
     WBasic (UWrite [Byte.x68; Byte.x69] (Normal (2, None)));
     WFlush (Normal tt)]
  /\ StatusCode (fst st) = 404 /\ BytesWritten (fst st) = 2.
Proof. vm_compute. repeat split. Qed.


(** ** The two logs *)

Lemma basicLog_app (a b : list WriterCall) :
  basicLog (a ++ b) = (basicLog a ++ basicLog b)%list.
Proof.
  induction a as [|[] a IH]; simpl; auto. now rewrite IH.
Qed.

Lemma basicLog_map (cs : list UnderlyingCall) :
  basicLog (map WBasic cs) = cs.
Proof.
  induction cs as [|c cs IH]; simpl; auto. now rewrite IH.
Qed.

Lemma optionalLog_app (a b : list WriterCall) :
  optionalLog (a ++ b) = (optionalLog a ++ optionalLog b)%list.
Proof.
  induction a as [|[] a IH]; simpl; auto; now rewrite IH.
Qed.

Lemma optionalLog_map (cs : list UnderlyingCall) :
  optionalLog (map WBasic cs) = [].
Proof.
  induction cs as [|c cs IH]; simpl; auto.
Qed.

Section FullInvariant.

Variable W : Type.
Variable U : Wrapped.

(** The wrapper and what its wrapped writer has received as an
    [http.ResponseWriter]. *)
Definition seen (st : fullState W) : state W :=
  (fst st, basicLog (snd st)).

Lemma stepMethod_cases (m : Method) (rw : responseWriter W)
  (h : list WriterCall) :
  (exists c,
      writesOf [m] = [c]
      /\ reaches U m = false
      /\ stepMethod U m (rw, h)
         = (fst (step (after U h) c (rw, [])),
            (h ++ map WBasic (snd (step (after U h) c (rw, []))))%list))
  \/ (writesOf [m] = []
      /\ exists x,
          stepMethod U m (rw, h) = (rw, (h ++ x)%list)
          /\ basicLog x = []
          /\ optionalLog x = if reaches U m then [m] else []).
Proof.
  destruct m as [code|b| | |target opts];
    unfold stepMethod, reaches, writesOf.
  - left. exists (CallWriteHeader code). repeat split.
    unfold WriteHeaderAfter, step.
    destruct (WriteHeader (after U h) code (rw, [])) as [r st']. reflexivity.
  - left. exists (CallWrite b). repeat split.
    unfold WriteAfter, step.
    destruct (Write (after U h) b (rw, [])) as [r st']. reflexivity.
  - right. split; [reflexivity|]. unfold Flush.
    destruct (asFlusher U) as [f|]; simpl.
    + eexists. repeat split.
    + exists []. rewrite app_nil_r. repeat split.
  - right. split; [reflexivity|]. unfold Hijack.
    destruct (asHijacker U) as [f|]; simpl.
    + eexists. repeat split.
    + exists []. rewrite app_nil_r. repeat split.
  - right. split; [reflexivity|]. unfold Push.
    destruct (asPusher U) as [f|]; simpl.
    + eexists. repeat split.
    + exists []. rewrite app_nil_r. repeat split.
Qed.

(** A call on a wrapper whose wrapped writer has a history does to the
    captured values what it does on one without. *)
Lemma step_consistent_after (u : Underlying) (c : Call)
  (rw : responseWriter W) (l : list UnderlyingCall) :
  consistent W (rw, l) ->
  consistent W (fst (step u c (rw, [])),
                (l ++ snd (step u c (rw, [])))%list).
Proof.
  intros [Hb [Hf Ht]].
  destruct c as [code|b]; simpl.
  - unfold WriteHeader. destruct (wroteHeader rw) eqn:Ew; simpl.
    + rewrite app_nil_r. repeat split; auto; congruence.
    + destruct (Hf eq_refl) as [Hh _].
      rewrite headersWritten_app, bytesReturned_app, Hh. simpl.
      repeat split; try discriminate. rewrite Z.add_0_r. exact Hb.
  - unfold Write, WriteHeader. simpl.
    destruct (wroteHeader rw) eqn:Ew; simpl.
    + destruct (uWrite u [] b) as [[n e]|v]; simpl;
        rewrite headersWritten_app, bytesReturned_app; simpl;
        rewrite app_nil_r, ?Z.add_0_r;
        (split; [|split]); try (intros; congruence); auto.
      rewrite Hb. apply wrap64_add_l.
    + destruct (Hf eq_refl) as [Hh _].
      destruct (uWriteHeader u [] StatusOK) as [[]|v]; simpl;
        [destruct (uWrite u _ b) as [[n e]|v]; simpl|];
        rewrite headersWritten_app, bytesReturned_app, Hh; simpl;
        rewrite ?Z.add_0_r;
        (split; [|split]); try (intros; congruence); auto.
      rewrite Hb. apply wrap64_add_l.
Qed.

Lemma step_settled_after (u : Underlying) (s : Z) (c : Call)
  (rw : responseWriter W) (l : list UnderlyingCall) :
  settled W s (rw, l) ->
  settled W s (fst (step u c (rw, [])),
               (l ++ snd (step u c (rw, [])))%list).
Proof.
  intros [Hw [Hs Hh]]. simpl in *.
  destruct c as [code|b]; simpl.
  - unfold WriteHeader. rewrite Hw. simpl. rewrite app_nil_r.
    repeat split; auto.
  - unfold Write. simpl. rewrite Hw. simpl.
    destruct (uWrite u [] b) as [[n e]|v]; unfold settled; simpl;
      rewrite headersWritten_app; simpl; rewrite Hh;
      repeat split; auto.
Qed.

Lemma stepMethod_consistent (m : Method) (st : fullState W) :
  consistent W (seen st) -> consistent W (seen (stepMethod U m st)).
Proof.
  destruct st as [rw h]. intros Hc.
  destruct (stepMethod_cases m rw h) as [[c [_ [_ ->]]] | [_ [x [-> [Hx _]]]]];
    unfold seen in *; simpl in *.
  - rewrite basicLog_app, basicLog_map.
    now apply step_consistent_after.
  - now rewrite basicLog_app, Hx, app_nil_r.
Qed.

Lemma stepMethod_settled (s : Z) (m : Method) (st : fullState W) :
  settled W s (seen st) -> settled W s (seen (stepMethod U m st)).
Proof.
  destruct st as [rw h]. intros Hc.
  destruct (stepMethod_cases m rw h) as [[c [_ [_ ->]]] | [_ [x [-> [Hx _]]]]];
    unfold seen in *; simpl in *.
  - rewrite basicLog_app, basicLog_map.
    now apply step_settled_after.
  - now rewrite basicLog_app, Hx, app_nil_r.
Qed.

Lemma runMethods_consistent (ms : list Method) :
  forall st, consistent W (seen st) ->
             consistent W (seen (runMethods U ms st)).
Proof.
  induction ms as [|m ms IH]; intros st Hc; simpl; auto.
  apply IH. now apply stepMethod_consistent.
Qed.

Lemma runMethods_settled (s : Z) (ms : list Method) :
  forall st, settled W s (seen st) ->
             settled W s (seen (runMethods U ms st)).
Proof.
  induction ms as [|m ms IH]; intros st Hc; simpl; auto.
  apply IH. now apply stepMethod_settled.
Qed.

(** Before the first [WriteHeader] or [Write], the wrapper is as it was
    made; that call settles the status. *)
Lemma runMethods_status (w : W) (ms : list Method) :
  forall h, basicLog h = [] ->
  match firstStatus (writesOf ms) with
  | Some s => settled W s (seen (runMethods U ms (newResponseWriter w, h)))
  | None => fst (runMethods U ms (newResponseWriter w, h))
            = newResponseWriter w
            /\ basicLog (snd (runMethods U ms (newResponseWriter w, h))) = []
  end.
Proof.
  induction ms as [|m ms IH]; intros h Hh.
  - simpl. split; auto.
  - change (runMethods U (m :: ms) (newResponseWriter w, h))
      with (runMethods U ms (stepMethod U m (newResponseWriter w, h))).
    destruct (stepMethod_cases m (newResponseWriter w) h)
      as [[c [Hc [_ E]]] | [Hc [x [E [Hx _]]]]].
    + replace (writesOf (m :: ms)) with (c :: writesOf ms)
        by (destruct m; simpl in *; congruence).
      destruct (firstStatus (c :: writesOf ms)) as [s|] eqn:Ef.
      2:{ destruct c; discriminate. }
      apply runMethods_settled. rewrite E. unfold seen. simpl.
      rewrite basicLog_app, basicLog_map, Hh. simpl.
      apply (first_step_settled W (after U h) w c (writesOf ms) s Ef).
    + replace (writesOf (m :: ms)) with (writesOf ms)
        by (destruct m; simpl in *; congruence).
      rewrite E. apply IH. now rewrite basicLog_app, Hh, Hx.
Qed.

Lemma runMethods_optionalLog (ms : list Method) :
  forall st : fullState W,
    optionalLog (snd (runMethods U ms st))
    = (optionalLog (snd st) ++ filter (reaches U) ms)%list.
Proof.
  induction ms as [|m ms IH]; intros [rw h]; simpl.
  - now rewrite app_nil_r.
  - rewrite IH.
    destruct (stepMethod_cases m rw h)
      as [[c [_ [Hr ->]]] | [_ [x [-> [_ Hx]]]]]; simpl.
    + rewrite Hr, optionalLog_app, optionalLog_map, app_nil_r. reflexivity.
    + rewrite optionalLog_app, Hx.
      destruct (reaches U m); simpl; [|now rewrite app_nil_r].
      now rewrite <- app_assoc.
Qed.

Lemma stepMethod_Unwrap (m : Method) (st : fullState W) :
  Unwrap (fst (stepMethod U m st)) = Unwrap (fst st).
Proof.
  destruct st as [rw h].
  destruct m as [code|b| | |target opts]; simpl.
  - unfold WriteHeaderAfter, WriteHeader.
    destruct (wroteHeader rw); reflexivity.
  - unfold WriteAfter, Write, WriteHeader. simpl.
    destruct (wroteHeader rw); simpl.
    + destruct (wWrite U _ b) as [[n e]|v]; reflexivity.
    + destruct (wWriteHeader U _ StatusOK) as [[]|v]; simpl;
        [destruct (wWrite U _ b) as [[n e]|v]|]; reflexivity.
  - unfold Flush. destruct (asFlusher U); reflexivity.
  - unfold Hijack. destruct (asHijacker U); reflexivity.
  - unfold Push. destruct (asPusher U); reflexivity.
Qed.

Lemma runMethods_Unwrap (ms : list Method) :
  forall st : fullState W,
    Unwrap (fst (runMethods U ms st)) = Unwrap (fst st).
Proof.
  induction ms as [|m ms IH]; intros st; simpl; auto.
  rewrite IH. apply stepMethod_Unwrap.
Qed.

End FullInvariant.

(** X7. Whatever a handler calls on a [responseWriter], and whatever the
    wrapped writer does: [Flush], [Hijack] and [Push] reach the wrapped
    writer exactly when it implements the interface, once per call, in
    order and with the same arguments, and otherwise do nothing but return
    ([Hijack] and [Push] with [http.ErrNotSupported]). They never write a
    header or a byte and leave the captured values alone: the status is
    that of the first [WriteHeader] or [Write] call as if the other calls
    had not been made (also when the wrapped writer was flushed before),
    the byte count is the [int64] sum of what the wrapped writer's [Write]
    returned, and [Unwrap] returns the writer that was wrapped. *)
Theorem optional_interfaces_pass_through
  (W : Type) (U : Wrapped) (w : W) (ms : list Method) :
  let st := runMethods U ms (newResponseWriter w, []) in
  optionalLog (snd st) = filter (reaches U) ms
  /\ headersWritten (basicLog (snd st))
     = match firstStatus (writesOf ms) with
       | Some s => [s]
       | None => []
       end
  /\ StatusCode (fst st)
     = match firstStatus (writesOf ms) with
       | Some s => s
       | None => StatusOK
       end
  /\ BytesWritten (fst st) = wrap64 (bytesReturned (basicLog (snd st)))
  /\ Unwrap (fst st) = w
  /\ (forall s : fullState W,
        asFlusher U = None -> Flush U s = (Normal tt, s))
  /\ (forall s : fullState W,
        asHijacker U = None ->
        Hijack U s = (Normal (None, None, ErrNotSupported), s))
  /\ (forall (s : fullState W) target opts,
        asPusher U = None ->
        Push U target opts s = (Normal ErrNotSupported, s)).
Proof.
  intros st.
  assert (Hc : consistent W (seen W st)).
  { apply runMethods_consistent. unfold seen. simpl.
    apply (consistent_new W w). }
  pose proof (runMethods_status W U w ms [] eq_refl) as Hs.
  fold st in Hs.
  pose proof (runMethods_optionalLog W U ms (newResponseWriter w, [])) as Ho.
  pose proof (runMethods_Unwrap W U ms (newResponseWriter w, [])) as Hu.
  fold st in Ho, Hu. simpl in Ho, Hu.
  destruct st as [rw h]. unfold seen in *. simpl in *.
  destruct Hc as [Hb _].
  split; [exact Ho|].
  split; [|split; [|split; [exact Hb|split; [exact Hu|]]]].
  - destruct (firstStatus (writesOf ms)) as [s|].
    + destruct Hs as [_ [_ Hh]]. exact Hh.
    + destruct Hs as [_ Hh]. simpl in Hh. now rewrite Hh.
  - destruct (firstStatus (writesOf ms)) as [s|].
    + destruct Hs as [_ [Hs _]]. exact Hs.
    + destruct Hs as [Hrw _]. simpl in Hrw. now rewrite Hrw.
  - split; [|split].
    + intros [rw0 h0] E. unfold Flush. now rewrite E.
    + intros [rw0 h0] E. unfold Hijack. now rewrite E.
    + intros [rw0 h0] target opts E. unfold Push. now rewrite E.
Qed.

End ResponseWriterFullProofs.

(* ================================================================== *)
(** * Properties of nested response writers *)
(* ================================================================== *)

Module ResponseWriterNestedProofs.

Import Go.
Import ResponseWriter.
Import ResponseWriterNested.
Local Open Scope Z_scope.

Example nested_wrappers_run :
  let outer := run (wrapper acceptAll tt) handlerCalls
                 (newResponseWriter tt, []) in
  let inner := innerAfter acceptAll tt (snd outer) in
  (StatusCode (fst outer), BytesWritten (fst outer)) = (200, 3)
  /\ (StatusCode (fst inner), BytesWritten (fst inner)) = (200, 3)
  /\ headersWritten (snd inner) = [200].
Proof. vm_compute. repeat split. Qed.

Section Simulation.

Variable W W' : Type.
Variable u : Underlying.
Variable w : W.

(** The outer wrapper and the inner one have captured the same, and the
    innermost writer has received what the inner wrapper has. *)
Definition inStep (outer : state W') : Prop :=
  snd (innerAfter u w (snd outer)) = snd outer
  /\ statusCode (fst (innerAfter u w (snd outer))) = statusCode (fst outer)
  /\ bytesWritten (fst (innerAfter u w (snd outer)))
     = bytesWritten (fst outer)
  /\ wroteHeader (fst (innerAfter u w (snd outer)))
     = wroteHeader (fst outer).

Lemma innerAfter_snoc (l : list UnderlyingCall) (c : UnderlyingCall) :
  innerAfter u w (l ++ [c]) = step u (callOf c) (innerAfter u w l).
Proof.
  unfold innerAfter, run. rewrite map_app, fold_left_app. reflexivity.
Qed.

Lemma WriteHeader_inStep (code : Z) (outer : state W') :
  inStep outer -> inStep (snd (WriteHeader (wrapper u w) code outer)).
Proof.
  destruct outer as [rwo l]. unfold inStep. cbn [fst snd].
  intros [Hl [Hs [Hb Hw]]].
  assert (E : WriteHeader (wrapper u w) code (rwo, l)
              = if negb (wroteHeader rwo)
                then (fst (WriteHeader u code (innerAfter u w l)),
                      (mkResponseWriter (ResponseWriter rwo) code
                         (bytesWritten rwo) true,
                       (l ++ [UWriteHeader code
                                (fst (WriteHeader u code
                                        (innerAfter u w l)))])%list))
                else (Normal tt, (rwo, l))) by reflexivity.
  rewrite E. clear E.
  destruct (wroteHeader rwo) eqn:Ew; cbn [negb fst snd].
  - rewrite Ew. auto.
  - rewrite innerAfter_snoc. cbn [callOf step].
    destruct (innerAfter u w l) as [rwi li] eqn:Ei. cbn [fst snd] in *.
    subst li. unfold WriteHeader. rewrite Hw. cbn. auto.
Qed.

Lemma Write_inStep (b : list Byte.byte) (outer : state W') :
  inStep outer -> inStep (snd (Write (wrapper u w) b outer)).
Proof.
  intros Hi. unfold Write at 1.
  assert (Hpre : exists r0 st1,
             (if negb (wroteHeader (fst outer))
              then WriteHeader (wrapper u w) StatusOK outer
              else (Normal tt, outer)) = (r0, st1)
             /\ inStep st1 /\ wroteHeader (fst st1) = true).
  { destruct (wroteHeader (fst outer)) eqn:Ew; cbn [negb].
    - exists (Normal tt), outer. auto.
    - pose proof (WriteHeader_inStep StatusOK outer Hi) as Hi'.
      destruct (WriteHeader (wrapper u w) StatusOK outer) as [r0 st1] eqn:E.
      exists r0, st1. repeat split; try apply Hi'.
      destruct outer as [rwo l]. cbn [fst] in Ew.
      unfold WriteHeader in E. rewrite Ew in E. cbn [negb] in E.
      injection E as _ <-. reflexivity. }
  destruct Hpre as [r0 [[rwo l] [-> [Hi1 Hw1]]]].
  destruct r0 as [[]|v]; [|exact Hi1].
  destruct Hi1 as [Hl [Hs [Hb Hw]]]. cbn [fst snd] in *.
  assert (Er : uWrite (wrapper u w) l b = uWrite u l b
               /\ innerAfter u w (l ++ [UWrite b (uWrite u l b)])
                  = match uWrite u l b with
                    | Normal (n, e) =>
                        (mkResponseWriter
                           (ResponseWriter (fst (innerAfter u w l)))
                           (statusCode rwo)
                           (wrap64 (bytesWritten rwo + n)) true,
                         (l ++ [UWrite b (uWrite u l b)])%list)
                    | Panicked _ =>
                        (fst (innerAfter u w l),
                         (l ++ [UWrite b (uWrite u l b)])%list)
                    end).
  { rewrite innerAfter_snoc. cbn [callOf step wrapper uWrite].
    destruct (innerAfter u w l) as [rwi li] eqn:Ei. cbn [fst snd] in *.
    subst li. unfold Write. cbn [fst]. rewrite Hw, Hw1. cbn [negb].
    destruct (uWrite u l b) as [[n e]|v]; cbn [fst snd];
      rewrite ?Hs, ?Hb, ?Hw, ?Hw1; split; reflexivity. }
  destruct Er as [Er Ei]. rewrite Er.
  destruct (uWrite u l b) as [[n e]|v] eqn:Eu; unfold inStep;
    cbn [fst snd]; rewrite Ei; cbn [fst snd statusCode bytesWritten
                                      wroteHeader]; auto.
Qed.

Lemma run_inStep (calls : list Call) :
  forall outer : state W',
    inStep outer -> inStep (run (wrapper u w) calls outer).
Proof.
  induction calls as [|c calls IH]; intros outer Hi; simpl; auto.
  apply IH. destruct c; simpl;
    [now apply WriteHeader_inStep | now apply Write_inStep].
Qed.

End Simulation.

(** X8. When a [responseWriter] wraps another [responseWriter] that has not
    been written to yet, as the hooks of nested handlers make it, then
    after every sequence of [WriteHeader] and [Write] calls on the outer
    one both have captured the same status and the same byte count, and the
    innermost writer has received exactly the calls the inner wrapper has,
    with the same results: the header still reaches it once only. *)
Theorem nested_wrappers_capture_the_same
  (W W' : Type) (u : Underlying) (w : W) (w' : W') (calls : list Call) :
  let outer := run (wrapper u w) calls (newResponseWriter w', []) in
  let inner := innerAfter u w (snd outer) in
  StatusCode (fst outer) = StatusCode (fst inner)
  /\ BytesWritten (fst outer) = BytesWritten (fst inner)
  /\ snd inner = snd outer
  /\ (List.length (headersWritten (snd inner)) <= 1)%nat.
Proof.
  intros outer inner.
  assert (Hi : inStep W W' u w outer).
  { apply run_inStep. unfold inStep. simpl. auto. }
  destruct Hi as [Hl [Hs [Hb Hw]]]. fold inner in Hl, Hs, Hb, Hw.
  unfold StatusCode, BytesWritten.
  split; [now symmetry|]. split; [now symmetry|]. split; [exact Hl|].
  assert (Hc : ResponseWriterProofs.consistent W inner).
  { apply ResponseWriterProofs.run_consistent,
      ResponseWriterProofs.consistent_new. }
  destruct inner as [rwi li]. destruct Hc as [_ [Hf Ht]]. cbn [snd].
  destruct (wroteHeader rwi).
  - rewrite (Ht eq_refl). simpl. lia.
  - destruct (Hf eq_refl) as [-> _]. simpl. lia.
Qed.

End ResponseWriterNestedProofs.

(* ================================================================== *)
(** * Properties of the client's attribute getters *)
(* ================================================================== *)

Module ClientGettersProofs.

Import Go.
Import NetHTTP.
Import ClientGetters.
Local Open Scope string_scope.
Local Open Scope Z_scope.

Example error_type_of_a_404 :
  GetErrorType withStatus plainRequest (mkClientResponse (Some 404%nat) None)
    None = "404"
  /\ GetErrorType withStatus plainRequest
       (mkClientResponse (Some 404%nat) (Some 7%nat)) (Some 7%nat) = "error"
  /\ GetErrorType withStatus plainRequest
       (mkClientResponse (Some 200%nat) None) None = "".
Proof. repeat split. Qed.

(** ** Status codes as text *)

Definition statusText_ok (n : Z) : bool :=
  match decimalValue (Itoa n) with
  | Some m => m =? n
  | None => false
  end
  && negb (String.eqb (Itoa n) "error")
  && negb (String.eqb (Itoa n) "")
  && Nat.eqb (String.length (Itoa n)) 3.

Lemma Itoa_status (n : Z) :
  400 <= n < 600 ->
  decimalValue (Itoa n) = Some n
  /\ Itoa n <> "error" /\ Itoa n <> "" /\ String.length (Itoa n) = 3%nat.
Proof.
  intros Hn.
  assert (Hall : forallb (fun k => statusText_ok (400 + Z.of_nat k))
                   (seq 0 200) = true) by (vm_compute; reflexivity).
  rewrite forallb_forall in Hall.
  specialize (Hall (Z.to_nat (n - 400))).
  replace (400 + Z.of_nat (Z.to_nat (n - 400))) with n in Hall by lia.
  assert (Hin : In (Z.to_nat (n - 400)) (seq 0 200)) by (apply in_seq; lia).
  specialize (Hall Hin). unfold statusText_ok in Hall.
  repeat (apply andb_prop in Hall; destruct Hall as [Hall ?]).
  destruct (decimalValue (Itoa n)) as [m|]; [|discriminate].
  apply Z.eqb_eq in Hall. subst m.
  repeat split.
  - intros E. rewrite E in *. discriminate.
  - intros E. rewrite E in *. discriminate.
  - now apply Nat.eqb_eq.
Qed.

(** X9. The error type and the status code the client reports for a call
    agree. With an error, the error type is the word "error" and the status
    code is 0, whatever the response says. Without one, the error type is
    empty exactly when the status code is outside 400..599 (0 for a missing
    response); otherwise it is the status code in decimal, three digits
    from which the code can be read back. *)
Theorem error_type_follows_status_code
  (deref : nat -> HTTPResponse) (req : Request) (resp : ClientResponse)
  (err : GoError) :
  let et := GetErrorType deref req resp err in
  let sc := GetHTTPResponseStatusCode deref req resp err in
  (et = "error" <-> err <> None)
  /\ (err <> None -> sc = 0)
  /\ (et = "" <-> err = None /\ ~ 400 <= sc < 600)
  /\ (err = None -> 400 <= sc < 600 ->
      et = Itoa sc /\ decimalValue et = Some sc
      /\ String.length et = 3%nat).
Proof.
  intros et sc. subst et sc.
  unfold GetErrorType, GetHTTPResponseStatusCode.
  destruct err as [e|].
  - repeat split; try discriminate; try congruence.
    intros [E _]. discriminate.
  - destruct (Response resp) as [p|].
    + destruct ((400 <=? StatusCode (deref p))
                && (StatusCode (deref p) <? 600)) eqn:Er.
      * apply andb_prop in Er. destruct Er as [Ea Eb].
        apply Z.leb_le in Ea. apply Z.ltb_lt in Eb.
        destruct (Itoa_status (StatusCode (deref p)) (conj Ea Eb))
          as [Hd [He [Hn Hl]]].
        repeat split; try congruence; try tauto.
      * assert (Hr : ~ 400 <= StatusCode (deref p) < 600).
        { intros [Ha Hb]. apply Z.leb_le in Ha. apply Z.ltb_lt in Hb.
          rewrite Ha, Hb in Er. discriminate. }
        repeat split; try discriminate; try congruence; try tauto.
    + repeat split; try discriminate; try congruence; try lia.
Qed.

End ClientGettersProofs.

(* ================================================================== *)
(** * Properties of the span validators *)
(* ================================================================== *)

Module AppProofs.

Import App.
Local Open Scope string_scope.
Local Open Scope list_scope.

Example later_attribute_wins :
  ValidateSpanAttributes (fun n : nat => n) Nat.eqb
    [mkKeyValue "k" 1; mkKeyValue "k" 2] [("k", 2)] = None
  /\ ValidateSpanAttributes (fun n : nat => n) Nat.eqb
       [mkKeyValue "k" 1; mkKeyValue "k" 2] [("k", 1)]
     = Some (UnexpectedValue "k" 1 2).
Proof. split; reflexivity. Qed.

Section ValidateProofs.

Variable any : Type.
Variable attrValue : Type.
Variable AsInterface : attrValue -> any.
Variable ObjectsAreEqual : any -> any -> bool.

Lemma attrMapOf_snoc (attrs : list (KeyValue attrValue))
  (attr : KeyValue attrValue) :
  attrMapOf AsInterface (attrs ++ [attr])
  = mapSet (attrMapOf AsInterface attrs) (Key attr)
      (AsInterface (Value attr)).
Proof.
  unfold attrMapOf. rewrite fold_left_app. reflexivity.
Qed.

Lemma attrMapOf_last (attrs : list (KeyValue attrValue)) (key : string) :
  attrMapOf AsInterface attrs key
  = option_map (fun attr => AsInterface (Value attr))
      (lastWithKey key attrs).
Proof.
  induction attrs as [|attr attrs IH] using rev_ind.
  - reflexivity.
  - rewrite attrMapOf_snoc. unfold mapSet, lastWithKey.
    rewrite rev_app_distr. simpl.
    destruct (String.eqb (Key attr) key); [reflexivity | exact IH].
Qed.

Lemma lastWithKey_has (attrs : list (KeyValue attrValue)) (key : string) :
  lastWithKey key attrs <> None ->
  ValidateSpanHasAttribute any attrs key = None.
Proof.
  unfold lastWithKey. intros H.
  destruct (List.find _ (List.rev attrs)) as [attr|] eqn:E; [|contradiction].
  apply find_some in E. destruct E as [Hin Hk]. apply in_rev in Hin.
  clear H. induction attrs as [|a attrs IH]; [contradiction|]. simpl.
  destruct (String.eqb (Key a) key) eqn:Ea; [reflexivity|].
  destruct Hin as [-> | Hin]; [congruence | now apply IH].
Qed.

Lemma lastWithKey_missing (attrs : list (KeyValue attrValue))
  (key : string) :
  lastWithKey key attrs = None ->
  ValidateSpanHasAttribute any attrs key = Some (AttributeNotFound any key).
Proof.
  unfold lastWithKey. intros H.
  assert (Hall : forall a, In a attrs -> String.eqb (Key a) key = false).
  { intros a Hin. apply in_rev in Hin.
    exact (find_none _ _ H a Hin). }
  clear H. induction attrs as [|a attrs IH]; [reflexivity|]. simpl.
  rewrite (Hall a (or_introl eq_refl)). apply IH.
  intros a' Hin. apply Hall. now right.
Qed.

Lemma checkExpected_passes (m : goMap any) (visited : list (string * any)) :
  checkExpected ObjectsAreEqual m visited = None
  <-> (forall key expected,
          In (key, expected) visited ->
          exists actual,
            m key = Some actual /\ ObjectsAreEqual expected actual = true).
Proof.
  induction visited as [|[k e] visited IH]; simpl.
  - split; [intros _ key expected [] | reflexivity].
  - split.
    + intros H key expected [E | Hin].
      * injection E as -> ->.
        destruct (m key) as [a|]; [|discriminate].
        destruct (ObjectsAreEqual expected a) eqn:Eq; [|discriminate].
        exists a. split; [reflexivity | exact Eq].
      * destruct (m k) as [a|]; [|discriminate].
        destruct (ObjectsAreEqual e a); [|discriminate].
        apply IH; assumption.
    + intros H.
      destruct (H k e (or_introl eq_refl)) as [a [-> ->]].
      apply IH. intros key expected Hin. apply H. now right.
Qed.

Lemma checkExpected_not_found (m : goMap any)
  (visited : list (string * any)) (key : string) :
  checkExpected ObjectsAreEqual m visited = Some (AttributeNotFound any key) ->
  In key (map fst visited) /\ m key = None.
Proof.
  induction visited as [|[k e] visited IH]; simpl; [discriminate|].
  destruct (m k) as [a|] eqn:Em.
  - destruct (ObjectsAreEqual e a); [|discriminate].
    intros H. destruct (IH H) as [Hin Hm]. split; [now right | exact Hm].
  - intros H. injection H as <-. split; [now left | exact Em].
Qed.

End ValidateProofs.

(** X10. [ValidateSpanAttributes] passes exactly when, for every expected
    entry, the span has an attribute with that key and the last such
    attribute has a value [require.Equal] accepts: of two attributes with
    one key the later one counts. Whether it passes does not depend on the
    order in which the expected map is visited. When it passes,
    [ValidateSpanHasAttribute] passes for every expected key; when it
    reports a missing attribute, the key is an expected one for which
    [ValidateSpanHasAttribute] fails too. *)
Theorem ValidateSpanAttributes_compares_the_last_value
  (any attrValue : Type) (AsInterface : attrValue -> any)
  (ObjectsAreEqual : any -> any -> bool)
  (attrs : list (KeyValue attrValue)) (visited : list (string * any)) :
  (ValidateSpanAttributes AsInterface ObjectsAreEqual attrs visited = None
   <-> (forall key expected,
          In (key, expected) visited ->
          exists attr,
            lastWithKey key attrs = Some attr
            /\ ObjectsAreEqual expected (AsInterface (Value attr)) = true))
  /\ (forall visited',
        (forall entry, In entry visited <-> In entry visited') ->
        (ValidateSpanAttributes AsInterface ObjectsAreEqual attrs visited
         = None
         <-> ValidateSpanAttributes AsInterface ObjectsAreEqual attrs
               visited' = None))
  /\ (ValidateSpanAttributes AsInterface ObjectsAreEqual attrs visited = None
      -> forall key expected,
          In (key, expected) visited ->
          ValidateSpanHasAttribute any attrs key = None)
  /\ (forall key,
        ValidateSpanAttributes AsInterface ObjectsAreEqual attrs visited
        = Some (AttributeNotFound any key) ->
        In key (map fst visited)
        /\ ValidateSpanHasAttribute any attrs key
           = Some (AttributeNotFound any key)).
Proof.
  assert (Hpass : forall vis,
             ValidateSpanAttributes AsInterface ObjectsAreEqual attrs vis
             = None
             <-> (forall key expected,
                    In (key, expected) vis ->
                    exists attr,
                      lastWithKey key attrs = Some attr
                      /\ ObjectsAreEqual expected (AsInterface (Value attr))
                         = true)).
  { intros vis. unfold ValidateSpanAttributes.
    rewrite checkExpected_passes. split; intros H key expected Hin.
    - destruct (H key expected Hin) as [a [Hm Heq]].
      rewrite attrMapOf_last in Hm.
      destruct (lastWithKey key attrs) as [attr|]; [|discriminate].
      injection Hm as <-. exists attr. split; [reflexivity | exact Heq].
    - destruct (H key expected Hin) as [attr [Hl Heq]].
      exists (AsInterface (Value attr)). rewrite attrMapOf_last, Hl.
      split; [reflexivity | exact Heq]. }
  split; [apply Hpass|]. split; [|split].
  - intros visited' Hsame. rewrite !Hpass.
    split; intros H key expected Hin; apply H; now apply Hsame.
  - intros H key expected Hin. apply lastWithKey_has.
    destruct (proj1 (Hpass visited) H key expected Hin) as [attr [-> _]].
    discriminate.
  - intros key H. unfold ValidateSpanAttributes in H.
    apply checkExpected_not_found in H. destruct H as [Hin Hm].
    split; [exact Hin|]. apply lastWithKey_missing.
    rewrite attrMapOf_last in Hm.
    destruct (lastWithKey key attrs); [discriminate | reflexivity].
Qed.

End AppProofs.
